(** * The user evict-leader scheduler plugin: configuration store,
      lifecycle hooks, scheduling tick and HTTP control plane.

    A shallow embedding of the plugin's Go source.  The scheduler keeps a
    mapping from store IDs to key ranges ([StoreIDWitRanges]); the handlers
    mutate it, call into the cluster (pause / resume of inbound leader
    transfers) and persist it through the configuration storage.  The
    cluster, the storage and the operator controller are interfaces in the
    source and type classes here; every pause, resume and save call made on
    them is recorded in a trace, so that the calls issued can be counted.
    The config's reader/writer lock is part of the state: one thread of
    control runs the calls, and a call that asks for a lock it cannot get
    does not return. *)

From Stdlib Require Import Ascii String NArith DecimalString DecimalN DecimalPos.
From stdpp Require Import gmap strings list fin_maps.

Local Open Scope string_scope.
Local Open Scope list_scope.
Local Open Scope N_scope.

(** ** Errors and results *)

(** Go's [error] values that the plugin creates, wraps or receives. *)
Inductive error : Type :=
  | ErrNew (msg : string)          (* errors.New(msg) *)
  | ErrSyntax (input : string)     (* strconv.ErrSyntax, wrapped in a NumError *)
  | ErrRange (input : string)      (* strconv.ErrRange, wrapped in a NumError *)
  | ErrEscape (input : string)     (* url.EscapeError *)
  | ErrCollaborator (code : N).    (* an error returned by a collaborator *)

Inductive result (A : Type) : Type :=
  | Ok (a : A)
  | Err (e : error).
Arguments Ok {A} a.
Arguments Err {A} e.

(** ** The parts of Go's standard library the plugin calls *)

Module strconv.

(** [uint64] values are modelled as [N] below [2^64]. *)
Definition maxUint64 : N := 2 ^ 64.

Definition isDigit (c : ascii) : bool :=
  let n := N_of_ascii c in (48 <=? n) && (n <=? 57).

(** The loop of [strconv.ParseUint(s, 10, 64)] over the bytes of [s], with
    [n] the value read so far: a byte that is not a decimal digit is a
    syntax error (no sign, no underscore: the base is given explicitly); a
    value that leaves 64 bits is a range error, raised at the digit that
    makes it so ([n >= cutoff] before the multiplication, the sum wrapping
    around after it). *)
Fixpoint ParseUint_loop (s0 s : string) (n : N) : result N :=
  match s with
  | EmptyString => Ok n
  | String c rest =>
      if isDigit c then
        if (maxUint64 - 1) / 10 + 1 <=? n then Err (ErrRange s0)
        else
          let n1 := n * 10 + (N_of_ascii c - 48) in
          if maxUint64 - 1 <? n1 then Err (ErrRange s0)
          else ParseUint_loop s0 rest n1
      else Err (ErrSyntax s0)
  end.

(** [strconv.ParseUint(s, 10, 64)]. *)
Definition ParseUint (s : string) : result N :=
  match s with
  | EmptyString => Err (ErrSyntax s)
  | _ => ParseUint_loop s s 0
  end.

(** [strconv.FormatUint(n, 10)]. *)
Definition FormatUint (n : N) : string :=
  NilZero.string_of_uint (N.to_uint n).

End strconv.

Module url.

Definition ishex (c : ascii) : bool :=
  let n := N_of_ascii c in
  ((48 <=? n) && (n <=? 57)) || ((97 <=? n) && (n <=? 102))
  || ((65 <=? n) && (n <=? 70)).

Definition unhex (c : ascii) : N :=
  let n := N_of_ascii c in
  if (48 <=? n) && (n <=? 57) then n - 48
  else if (97 <=? n) && (n <=? 102) then n - 97 + 10
  else if (65 <=? n) && (n <=? 70) then n - 65 + 10
  else 0.

(** [url.QueryUnescape]: ["%XY"] becomes the byte [XY], ["+"] becomes a
    space; a ["%"] that is not followed by two hexadecimal digits is an
    [EscapeError] that carries the offending fragment (at most three
    bytes). *)
Fixpoint QueryUnescape (s : string) : result string :=
  match s with
  | EmptyString => Ok EmptyString
  | String c rest =>
      if Ascii.eqb c "%"%char then
        match rest with
        | String h1 (String h2 rest') =>
            if ishex h1 && ishex h2 then
              match QueryUnescape rest' with
              | Ok t =>
                  Ok (String (ascii_of_N (N.lor (N.shiftl (unhex h1) 4) (unhex h2))) t)
              | Err e => Err e
              end
            else Err (ErrEscape (substring 0 3 s))
        | _ => Err (ErrEscape (substring 0 3 s))
        end
      else
        match QueryUnescape rest with
        | Ok t => Ok (String (if Ascii.eqb c "+"%char then " "%char else c) t)
        | Err e => Err e
        end
  end.

End url.

(** ** Key ranges *)

(** [keyutil.KeyRange]: a pair of byte strings. *)
Record KeyRange : Type := mkKeyRange {
  StartKey : string;
  EndKey : string;
}.

#[global] Instance KeyRange_eq_dec : EqDecision KeyRange.
Proof. solve_decision. Defined.

Definition NewKeyRange (startKey endKey : string) : KeyRange :=
  {| StartKey := startKey; EndKey := endKey |}.

(** The loop of [getKeyRanges]: while more than one argument is left, the
    next two are decoded and appended as a range. *)
Fixpoint getKeyRanges_loop (args : list string) (ranges : list KeyRange)
  : result (list KeyRange) :=
  match args with
  | a0 :: a1 :: rest =>
      match url.QueryUnescape a0 with
      | Err e => Err e
      | Ok startKey =>
          match url.QueryUnescape a1 with
          | Err e => Err e
          | Ok endKey =>
              getKeyRanges_loop rest (ranges ++ [NewKeyRange startKey endKey])
          end
      end
  | _ => Ok ranges
  end.

Definition getKeyRanges (args : list string) : result (list KeyRange) :=
  match getKeyRanges_loop args [] with
  | Err e => Err e
  | Ok ranges =>
      if (length ranges =? 0)%nat then Ok [NewKeyRange "" ""] else Ok ranges
  end.

(** [evictLeaderSchedulerConfig.StoreIDWitRanges]. *)
Abbreviation targets_map := (gmap N (list KeyRange)).

(** ** Constants and small types of the collaborating packages *)

Definition EvictLeaderName : string := "user-evict-leader-scheduler".
Definition EvictLeaderType : string := "user-evict-leader".
Definition noStoreInSchedulerInfo : string :=
  "No store in user-evict-leader-scheduler-config".
Definition userEvictLeaderScheduler : string := "user-evict-leader-scheduler".

(** [s.GetType()] and [s.GetName()] of the base scheduler the plugin builds
    with [NewBaseScheduler(opController, userEvictLeaderScheduler, nil)]. *)
Definition GetType : string := userEvictLeaderScheduler.
Definition GetName : string := userEvictLeaderScheduler.

Module constant.
(** Direction of a leader transfer with respect to a store. *)
Inductive Direction : Type := In | Out.
Inductive PriorityLevel : Type := Low | Medium | High | Urgent.
End constant.

Module operator.
(** The operator classes the plugin and its neighbours use. *)
Inductive OpKind : Type := OpLeader | OpRegion | OpAdmin.

#[global] Instance OpKind_eq_dec : EqDecision OpKind.
Proof. solve_decision. Defined.

#[global] Instance OpKind_countable : Countable OpKind.
Proof.
  refine (inj_countable'
    (fun k => match k with OpLeader => 0%nat | OpRegion => 1%nat | OpAdmin => 2%nat end)
    (fun n => match n with 0%nat => OpLeader | 1%nat => OpRegion | _ => OpAdmin end) _).
  intros []; reflexivity.
Defined.

(** A leader-transfer operator as the scheduler sees it. *)
Record Operator : Type := mkOperator {
  Desc : string;
  RegionID : N;
  TargetStore : N;
  Kind : OpKind;
  Priority : constant.PriorityLevel;
}.

Definition SetPriorityLevel (level : constant.PriorityLevel) (op : Operator)
  : Operator :=
  {| Desc := Desc op; RegionID := RegionID op; TargetStore := TargetStore op;
     Kind := Kind op; Priority := level |}.
End operator.

Record RegionInfo : Type := mkRegionInfo { region_id : N }.
Record StoreInfo : Type := mkStoreInfo { GetID : N }.

(** [plan.Plan]: [Schedule] never produces one. *)
Inductive Plan : Type := .

(** ** Calls on the collaborators *)

(** Every call the plugin makes on the cluster's pause / resume interface
    and on the configuration storage, with its outcome. *)
Inductive Event : Type :=
  | EvPause (id : N) (d : constant.Direction) (res : option error)
  | EvResume (id : N) (d : constant.Direction)
  | EvSave (name data : string) (res : option error).

(** [sche.SchedulerCluster], over an abstract cluster state. *)
Class SchedulerCluster (Σ : Type) : Type := {
  PauseLeaderTransfer : N -> constant.Direction -> Σ -> option error * Σ;
  ResumeLeaderTransfer : N -> constant.Direction -> Σ -> Σ;
  GetLeaderScheduleLimit : Σ -> N;
  RandLeaderRegions : N -> list KeyRange -> Σ -> list RegionInfo * Σ;
  GetFollowerStores : RegionInfo -> Σ -> list StoreInfo;
}.

(** The calls into package [filter]: [SelectOneRegion] with the pending and
    the down filter, and [NewCandidates(..).FilterTarget(..).RandomPick()]
    with the store-state filter of the scheduler. *)
Class Filters (Σ : Type) : Type := {
  SelectOneRegion : list RegionInfo -> Σ -> option RegionInfo;
  FilterTarget : list StoreInfo -> Σ -> list StoreInfo;
  RandomPick : list StoreInfo -> Σ -> option StoreInfo * Σ;
}.

(** [operator.Controller] and the operator builder. *)
Class OperatorController (Σ : Type) : Type := {
  OperatorCount : operator.OpKind -> Σ -> N;
  CreateTransferLeaderOperator :
    string -> RegionInfo -> N -> operator.OpKind -> Σ -> result operator.Operator;
}.

(** [endpoint.ConfigStorage] and [schedulers.EncodeConfig]. *)
Class ConfigStorage (Σ : Type) : Type := {
  EncodeConfig : targets_map -> result string;
  SaveSchedulerConfig : string -> string -> Σ -> option error * Σ;
}.

(** ** The state the plugin runs in *)

(** The state of the config's [syncutil.RWMutex], a Go [sync.RWMutex], as one
    thread of control sees it: free, held by [S n] readers, or held by the
    writer.  The lock is not reentrant. *)
Inductive RWMutex : Type :=
  | Unlocked
  | RLocked (n : nat)      (* held by [n + 1] readers *)
  | WLocked.

Record World (Σ : Type) : Type := mkWorld {
  StoreIDWitRanges : targets_map;       (* the config's mapping *)
  mu : RWMutex;                         (* the config's lock *)
  env : Σ;                              (* the collaborators' state *)
  trace : list Event;                   (* calls issued so far, oldest first *)
  limitCounter : gmap (string * operator.OpKind) N;  (* rejection counters *)
}.
Arguments mkWorld {Σ}.
Arguments StoreIDWitRanges {Σ}.
Arguments mu {Σ}.
Arguments env {Σ}.
Arguments trace {Σ}.
Arguments limitCounter {Σ}.

(** A call either returns a value in a new state, or does not return: it
    waits for a lock that nobody will release (or the runtime stops it on a
    misuse of the lock), and the state is the one it stops in. *)
Inductive Outcome (W A : Type) : Type :=
  | Returns (a : A) (w : W)
  | NoReturn (w : W).
Arguments Returns {W A} a w.
Arguments NoReturn {W A} w.

Definition stateOf {W A} (o : Outcome W A) : W :=
  match o with Returns _ w => w | NoReturn w => w end.

Definition returns {W A} (o : Outcome W A) : bool :=
  match o with Returns _ _ => true | NoReturn _ => false end.

(** Computations of the plugin. *)
Definition M (Σ A : Type) : Type := World Σ -> Outcome (World Σ) A.

#[global] Instance M_ret {Σ} : MRet (M Σ) := fun A a w => Returns a w.

#[global] Instance M_bind {Σ} : MBind (M Σ) := fun A B k m w =>
  match m w with
  | Returns a w' => k a w'
  | NoReturn w' => NoReturn w'
  end.

(** A step that always returns. *)
Definition lift {Σ A} (f : World Σ -> A * World Σ) : M Σ A :=
  fun w => let '(a, w') := f w in Returns a w'.

Definition modify {Σ} (f : World Σ -> World Σ) : M Σ unit :=
  fun w => Returns tt (f w).

Definition setMu {Σ} (m : RWMutex) (w : World Σ) : World Σ :=
  mkWorld (StoreIDWitRanges w) m (env w) (trace w) (limitCounter w).

Definition setConf {Σ} (m : targets_map) (w : World Σ) : World Σ :=
  mkWorld m (mu w) (env w) (trace w) (limitCounter w).

Definition withEnv {Σ} (σ : Σ) (w : World Σ) : World Σ :=
  mkWorld (StoreIDWitRanges w) (mu w) σ (trace w) (limitCounter w).

(** [conf.mu.Lock()]: waits until the lock is free. *)
Definition Lock {Σ} : M Σ unit := fun w =>
  match mu w with
  | Unlocked => Returns tt (setMu WLocked w)
  | _ => NoReturn w
  end.

(** [conf.mu.Unlock()]; unlocking a lock that is not write-locked is a fatal
    error of the Go runtime. *)
Definition Unlock {Σ} : M Σ unit := fun w =>
  match mu w with
  | WLocked => Returns tt (setMu Unlocked w)
  | _ => NoReturn w
  end.

(** [conf.mu.RLock()]: waits while the writer holds the lock. *)
Definition RLock {Σ} : M Σ unit := fun w =>
  match mu w with
  | Unlocked => Returns tt (setMu (RLocked 0) w)
  | RLocked n => Returns tt (setMu (RLocked (S n)) w)
  | WLocked => NoReturn w
  end.

(** [conf.mu.RUnlock()]. *)
Definition RUnlock {Σ} : M Σ unit := fun w =>
  match mu w with
  | RLocked 0 => Returns tt (setMu Unlocked w)
  | RLocked (S n) => Returns tt (setMu (RLocked n) w)
  | _ => NoReturn w
  end.

(** What a handler hands to [rd.JSON]: nothing, a text, the text of an
    error ([err.Error()]) or an error value. *)
Inductive Body : Type :=
  | BodyNil
  | BodyText (s : string)
  | BodyErrorText (e : error)
  | BodyErrorValue (e : error).

Record Response : Type := mkResponse {
  status : N;
  body : Body;
}.

Module http.
Definition StatusOK : N := 200.
Definition StatusBadRequest : N := 400.
Definition StatusInternalServerError : N := 500.
End http.

Definition JSON (code : N) (b : Body) : Response := mkResponse code b.

(** The decoded body of an update request: [store_id] after the conversion
    of the JSON number to [uint64] ([None] when the field is missing or is
    not a number), and [ranges] when the type assertion to a slice of
    strings succeeds (on a body read by the JSON decoder it does not: see
    [fromBody]). *)
Record UpdateInput : Type := mkUpdateInput {
  store_id : option N;
  ranges : option (list string);
}.

Inductive Request : Type :=
  | ReqUpdate (input : UpdateInput)
  | ReqDelete (idStr : string).

Section Plugin.

Context {Σ : Type}.
Context `{!SchedulerCluster Σ, !Filters Σ, !OperatorController Σ, !ConfigStorage Σ}.

(** [cluster.PauseLeaderTransfer(id, constant.In)], recorded. *)
Definition callPause (id : N) (w : World Σ) : option error * World Σ :=
  let '(res, σ) := PauseLeaderTransfer id constant.In (env w) in
  (res, mkWorld (StoreIDWitRanges w) (mu w) σ
                (trace w ++ [EvPause id constant.In res]) (limitCounter w)).

(** [cluster.ResumeLeaderTransfer(id, constant.In)], recorded. *)
Definition callResume (id : N) (w : World Σ) : World Σ :=
  mkWorld (StoreIDWitRanges w) (mu w)
          (ResumeLeaderTransfer id constant.In (env w))
          (trace w ++ [EvResume id constant.In]) (limitCounter w).

(** [conf.storage.SaveSchedulerConfig(name, data)], recorded. *)
Definition callSave (name data : string) (w : World Σ)
  : option error * World Σ :=
  let '(res, σ) := SaveSchedulerConfig name data (env w) in
  (res, mkWorld (StoreIDWitRanges w) (mu w) σ
                (trace w ++ [EvSave name data res]) (limitCounter w)).

(** [conf.mu.RLock(); defer conf.mu.RUnlock()] around a body that calls no
    method of the config. *)
Definition readLocked {A} (body : World Σ -> A * World Σ) : M Σ A :=
  RLock ;;
  res ← lift body;
  RUnlock ;;
  mret res.

(** [conf.BuildWithArgs]: the arguments are checked and decoded first; the
    lock is taken for the assignment only. *)
Definition BuildWithArgs (args : list string) : M Σ (option error) :=
  match args with
  | [] => mret (Some (ErrNew "should specify the store-id"))
  | a0 :: rest =>
      match strconv.ParseUint a0 with
      | Err e => mret (Some e)
      | Ok id =>
          match getKeyRanges rest with
          | Err e => mret (Some e)
          | Ok ranges =>
              Lock ;;
              modify (fun w => setConf (<[id := ranges]> (StoreIDWitRanges w)) w) ;;
              Unlock ;;
              mret None
          end
      end
  end.

(** [conf.Clone]: the copy shares the mapping. *)
Definition Clone : M Σ targets_map :=
  readLocked (fun w => (StoreIDWitRanges w, w)).

(** The body of [conf.Persist], under the read lock. *)
Definition saveConfig (w : World Σ) : option error * World Σ :=
  match EncodeConfig (StoreIDWitRanges w) with
  | Err e => (Some e, w)
  | Ok data => callSave EvictLeaderName data w
  end.

(** [conf.Persist]. *)
Definition Persist : M Σ (option error) := readLocked saveConfig.

(** [evictLeaderScheduler.EncodeConfig]. *)
Definition Scheduler_EncodeConfig : M Σ (result string) :=
  readLocked (fun w => (EncodeConfig (StoreIDWitRanges w), w)).

(** The loop of [conf.getRanges] over the ranges of a store. *)
Definition flattenRanges (rs : list KeyRange) : list string :=
  foldl (fun res kr => res ++ [StartKey kr; EndKey kr]) [] rs.

(** [conf.getRanges]: indexing the mapping with a store ID it does not hold
    yields no range and adds no entry. *)
Definition getRanges (id : N) : M Σ (list string) :=
  readLocked
    (fun w => (flattenRanges (default [] (StoreIDWitRanges w !! id)), w)).

(** The loop of [PrepareConfig]: [order] is the order in which [range]
    visits the keys of the mapping. *)
Definition pauseLoop (order : list N) (w : World Σ) : option error * World Σ :=
  foldl (fun '(res, w) id =>
           let '(err, w') := callPause id w in
           (match err with Some e => Some e | None => res end, w'))
        (None, w) order.

(** [PrepareConfig]. *)
Definition PrepareConfig (order : list N) : M Σ (option error) :=
  readLocked (pauseLoop order).

(** The loop of [CleanConfig]. *)
Definition resumeLoop (order : list N) (w : World Σ) : unit * World Σ :=
  (tt, foldl (fun w id => callResume id w) w order).

(** [CleanConfig]. *)
Definition CleanConfig (order : list N) : M Σ unit :=
  readLocked (resumeLoop order).

(** Modelled from the spec: [operator.IncOperatorLimitCounter], which is
    not part of the plugin's file, adds one to the rejection counter
    tagged by scheduler type and operator class. *)
Definition IncOperatorLimitCounter (typ : string) (kind : operator.OpKind)
    (w : World Σ) : World Σ :=
  mkWorld (StoreIDWitRanges w) (mu w) (env w) (trace w)
          (<[(typ, kind) := default 0 (limitCounter w !! (typ, kind)) + 1]>
             (limitCounter w)).

Definition counterValue (typ : string) (kind : operator.OpKind)
    (w : World Σ) : N :=
  default 0 (limitCounter w !! (typ, kind)).

(** [IsScheduleAllowed]; it takes no lock. *)
Definition IsScheduleAllowed (w : World Σ) : bool * World Σ :=
  let allowed :=
    OperatorCount operator.OpLeader (env w) <? GetLeaderScheduleLimit (env w) in
  if negb allowed
  then (allowed, IncOperatorLimitCounter GetType operator.OpLeader w)
  else (allowed, w).

(** One iteration of the loop of [Schedule], for the entry [(id, ranges)]:
    the operator it appends, if any, and the collaborators' state. *)
Definition scheduleStore (id : N) (rs : list KeyRange) (σ : Σ)
  : option operator.Operator * Σ :=
  let '(regions, σ1) := RandLeaderRegions id rs σ in
  match SelectOneRegion regions σ1 with
  | None => (None, σ1)
  | Some region =>
      let '(target, σ2) :=
        RandomPick (FilterTarget (GetFollowerStores region σ1) σ1) σ1 in
      match target with
      | None => (None, σ2)
      | Some target =>
          match CreateTransferLeaderOperator GetName region
                  (GetID target) operator.OpLeader σ2 with
          | Err _ => (None, σ2)
          | Ok op => (Some (operator.SetPriorityLevel constant.High op), σ2)
          end
      end
  end.

(** The loop of [Schedule]: [order] is the order in which [range] visits the
    entries of the mapping. *)
Definition scheduleLoop (order : list (N * list KeyRange)) (w : World Σ)
  : list operator.Operator * World Σ :=
  foldl (fun '(ops, w) '(id, rs) =>
           let '(op, σ) := scheduleStore id rs (env w) in
           (match op with Some op => ops ++ [op] | None => ops end,
            withEnv σ w))
        ([], w) order.

(** [Schedule]: the operators and no plan. *)
Definition Schedule (order : list (N * list KeyRange))
  : M Σ (list operator.Operator * list Plan) :=
  ops ← readLocked (scheduleLoop order);
  mret (ops, []).

(** The outcome of each iteration of the loop of [Schedule], in order. *)
Fixpoint scheduleOutcomes (order : list (N * list KeyRange)) (σ : Σ)
  : list (option operator.Operator) :=
  match order with
  | [] => []
  | (id, rs) :: order' =>
      let '(op, σ') := scheduleStore id rs σ in
      op :: scheduleOutcomes order' σ'
  end.

(** [updateConfig] from the resolution of the range arguments on. *)
Definition updateConfig_apply (input : UpdateInput) (exists_ : bool) (id : N)
    (args : list string) : M Σ Response :=
  args ← match ranges input with
         | Some rs => mret (args ++ rs)
         | None =>
             if exists_ then (current ← getRanges id; mret (args ++ current))
             else mret args
         end;
  err ← BuildWithArgs args;
  match err with
  | Some e =>
      Lock ;;
      modify (callResume id) ;;
      Unlock ;;
      mret (JSON http.StatusBadRequest (BodyErrorText e))
  | None =>
      err ← Persist;
      match err with
      | Some e =>
          Lock ;;
          modify (fun w => setConf (delete id (StoreIDWitRanges w)) w) ;;
          modify (callResume id) ;;
          Unlock ;;
          mret (JSON http.StatusInternalServerError (BodyErrorText e))
      | None => mret (JSON http.StatusOK BodyNil)
      end
  end.

(** [evictLeaderHandler.updateConfig], on a decoded request body; the
    mapping is read without the lock. *)
Definition updateConfig (input : UpdateInput) : M Σ Response :=
  match store_id input with
  | Some id =>
      exists_ ← lift (fun w => (bool_decide (is_Some (StoreIDWitRanges w !! id)), w));
      if (exists_ : bool) then
        updateConfig_apply input exists_ id [strconv.FormatUint id]
      else
        err ← lift (callPause id);
        match err with
        | Some e => mret (JSON http.StatusInternalServerError (BodyErrorText e))
        | None => updateConfig_apply input exists_ id [strconv.FormatUint id]
        end
  | None => updateConfig_apply input false 0 []
  end.

(** [evictLeaderHandler.listConfig]. *)
Definition listConfig : M Σ targets_map := Clone.

(** [evictLeaderHandler.deleteConfig], on the [store_id] path variable: the
    handler holds the write lock from the lookup to its return, also while
    it calls [Persist]. *)
Definition deleteConfig (idStr : string) : M Σ Response :=
  match strconv.ParseUint idStr with
  | Err e => mret (JSON http.StatusBadRequest (BodyErrorText e))
  | Ok id =>
      Lock ;;
      found ← lift (fun w => (StoreIDWitRanges w !! id, w));
      resp ← match found with
             | None =>
                 mret (JSON http.StatusInternalServerError
                            (BodyErrorValue (ErrNew "the config does not exist")))
             | Some rs =>
                 modify (fun w => setConf (delete id (StoreIDWitRanges w)) w) ;;
                 modify (callResume id) ;;
                 err ← Persist;
                 match err with
                 | Some e =>
                     modify (fun w => setConf (<[id := rs]> (StoreIDWitRanges w)) w) ;;
                     _ ← lift (callPause id);
                     mret (JSON http.StatusInternalServerError (BodyErrorText e))
                 | None =>
                     n ← lift (fun w => (size (StoreIDWitRanges w), w));
                     mret (JSON http.StatusOK
                                (if (n =? 0)%nat
                                 then BodyText noStoreInSchedulerInfo
                                 else BodyNil))
                 end
             end;
      Unlock ;;
      mret resp
  end.

(** The router of [newEvictLeaderHandler] on the two mutating routes. *)
Definition serve (r : Request) : M Σ Response :=
  match r with
  | ReqUpdate input => updateConfig input
  | ReqDelete idStr => deleteConfig idStr
  end.

(** Requests served one after the other by one thread of control: the run
    ends with the last request, or at the first request whose handler does
    not return. *)
Fixpoint serveAll (rs : list Request) : M Σ (list Response) :=
  match rs with
  | [] => mret []
  | r :: rs' =>
      resp ← serve r;
      resps ← serveAll rs';
      mret (resp :: resps)
  end.

End Plugin.

(** ** Counting calls, and runs of requests on one store *)

Definition isPauseOf (S : N) (e : Event) : bool :=
  match e with EvPause id _ _ => N.eqb id S | _ => false end.

Definition isResumeOf (S : N) (e : Event) : bool :=
  match e with EvResume id _ => N.eqb id S | _ => false end.

Definition pauseOk (e : Event) : bool :=
  match e with EvPause _ _ (Some _) => false | _ => true end.

Definition pauseCalls (S : N) (tr : list Event) : nat :=
  length (List.filter (isPauseOf S) tr).

Definition resumeCalls (S : N) (tr : list Event) : nat :=
  length (List.filter (isResumeOf S) tr).



(** The last error of a list of call results, if any call failed. *)
Definition lastError (rs : list (option error)) : option error :=
  foldl (fun acc r => match r with Some e => Some e | None => acc end) None rs.

Definition configured {Σ} (S : N) (w : World Σ) : bool :=
  bool_decide (is_Some (StoreIDWitRanges w !! S)).


(** A request that addresses store [S]. *)
Definition onStore (S : N) (r : Request) : bool :=
  match r with
  | ReqUpdate input =>
      match store_id input with Some id => N.eqb id S | None => false end
  | ReqDelete idStr =>
      match strconv.ParseUint idStr with Ok id => N.eqb id S | Err _ => false end
  end.

(** The empty configuration, with nobody holding the lock. *)
Definition initWorld {Σ} (σ : Σ) : World Σ := mkWorld ∅ Unlocked σ [] ∅.

Definition answers (code : N) {W} (o : Outcome W Response) : bool :=
  match o with
  | Returns resp _ => status resp =? code
  | NoReturn _ => false
  end.


(** The checks and the decoding [BuildWithArgs] does before it takes the
    lock: the store ID and its ranges, or the error. *)
Definition decodeArgs (args : list string) : result (N * list KeyRange) :=
  match args with
  | [] => Err (ErrNew "should specify the store-id")
  | a0 :: rest =>
      match strconv.ParseUint a0 with
      | Err e => Err e
      | Ok id =>
          match getKeyRanges rest with
          | Err e => Err e
          | Ok rs => Ok (id, rs)
          end
      end
  end.

(** A step that leaves the lock alone. *)
Definition keepsLock {Σ A} (f : World Σ -> A * World Σ) : Prop :=
  forall w m, f (setMu m w) = ((f w).1, setMu m (f w).2).

(** The results of pausing the stores of [order] one after the other, and
    the cluster state after the last call. *)
Fixpoint pauseAll {Σ} `{!SchedulerCluster Σ} (order : list N) (σ : Σ)
  : list (option error) * Σ :=
  match order with
  | [] => ([], σ)
  | id :: order' =>
      let '(r, σ1) := PauseLeaderTransfer id constant.In σ in
      let '(rs, σ2) := pauseAll order' σ1 in
      (r :: rs, σ2)
  end.

Definition pauseEvents (order : list N) (results : list (option error))
  : list Event :=
  zip_with (fun id r => EvPause id constant.In r) order results.

(** The call [Persist] makes on the storage in state [w], with its result:
    none when the encoding fails. *)
Definition persistEvents {Σ} `{!ConfigStorage Σ} (w : World Σ) : list Event :=
  match EncodeConfig (StoreIDWitRanges w) with
  | Err _ => []
  | Ok data =>
      [EvSave EvictLeaderName data
              (SaveSchedulerConfig EvictLeaderName data (env w)).1]
  end.

(** The pause call an update on [S] starts with: none when [S] is already
    configured. *)
Definition pausePart {Σ} (S : N) (w : World Σ) : list Event :=
  if configured S w then [] else [EvPause S constant.In None].


(** ** A small concrete cluster, storage and controller *)

Module Sim.

(** The cluster knows the stores of [stores] (pausing any other fails),
    hosts the leader regions of [leaders] (leader store, region, follower
    stores), and the storage accepts writes while [storageUp] holds. *)
Record State : Type := mkState {
  stores : list N;
  leaders : list (N * (N * list N));
  storageUp : bool;
  saved : list (string * string);
  inflight : N;
  limit : N;
}.

#[global] Instance cluster : SchedulerCluster State := {|
  PauseLeaderTransfer id _ σ :=
    if bool_decide (id ∈ stores σ) then (None, σ)
    else (Some (ErrCollaborator id), σ);
  ResumeLeaderTransfer _ _ σ := σ;
  GetLeaderScheduleLimit σ := limit σ;
  RandLeaderRegions id _ σ :=
    (omap (fun '(l, (r, _)) => if N.eqb l id then Some (mkRegionInfo r) else None)
          (leaders σ), σ);
  GetFollowerStores region σ :=
    flat_map (fun '(_, (r, fs)) =>
                if N.eqb r (region_id region) then map mkStoreInfo fs else [])
             (leaders σ);
|}.

#[global] Instance filters : Filters State := {|
  SelectOneRegion regions _ := head regions;
  FilterTarget sts σ :=
    List.filter (fun st => bool_decide (GetID st ∈ stores σ)) sts;
  RandomPick sts σ := (head sts, σ);
|}.

#[global] Instance controller : OperatorController State := {|
  OperatorCount _ σ := inflight σ;
  CreateTransferLeaderOperator desc region target kind _ :=
    Ok (operator.mkOperator desc (region_id region) target kind constant.Medium);
|}.

#[global] Instance storage : ConfigStorage State := {|
  EncodeConfig m :=
    Ok (String.concat "," (map (fun kv => strconv.FormatUint kv.1) (map_to_list m)));
  SaveSchedulerConfig name data σ :=
    if storageUp σ
    then (None, mkState (stores σ) (leaders σ) (storageUp σ)
                        ((name, data) :: saved σ) (inflight σ) (limit σ))
    else (Some (ErrCollaborator 1), σ);
|}.

(** Stores 5, 7 and 9; store 5 leads region 1 with followers 7 and 9. *)
Definition healthy : State :=
  mkState [5; 7; 9] [(5, (1, [7; 9]))] true [] 0 4.

(** The same cluster with the storage refusing writes. *)
Definition storageDown : State :=
  mkState [5; 7; 9] [(5, (1, [7; 9]))] false [] 0 4.

(** A cluster that knows no store. *)
Definition empty : State := mkState [] [] true [] 0 4.

(** The same cluster as [healthy] with the leader limit reached. *)
Definition saturated : State :=
  mkState [5; 7; 9] [(5, (1, [7; 9]))] true [] 4 4.

Definition am : list KeyRange := [NewKeyRange "a" "m"].

(** The configuration [{5: [("a","m")]}] on top of a cluster state. *)
Definition evicting5 (σ : State) : World State :=
  mkWorld {[ 5 := am ]} Unlocked σ [] ∅.

(** The body [{"store_id": id}] of an update request. *)
Definition update (id : N) : Request :=
  ReqUpdate {| store_id := Some id; ranges := None |}.

End Sim.

(** ** Construction of the scheduler *)

(** [SchedulerType] and [SchedulerArgs]: what the plugin exports for the
    loader. *)
Definition SchedulerType : string := EvictLeaderType.
Definition SchedulerArgs : list string := ["1"].

(** A value of Go's [any] handed to a config decoder: a pointer to the
    plugin's config (here, the mapping it holds), or anything else. *)
Inductive Any : Type :=
  | AnyConfig (conf : targets_map)
  | AnyOther.

(** The decoder that [init] registers with [RegisterSliceDecoderBuilder]:
    the error it returns and the value after the call. *)
Definition sliceDecoder (args : list string) (v : Any) : option error * Any :=
  match args with
  | [] => (Some (ErrNew "should specify the store-id"), v)
  | a0 :: rest =>
      match v with
      | AnyOther => (Some (ErrNew "the config does not exist"), v)
      | AnyConfig conf =>
          match strconv.ParseUint a0 with
          | Err e => (Some e, v)
          | Ok id =>
              match getKeyRanges rest with
              | Err e => (Some e, v)
              | Ok ranges => (None, AnyConfig (<[id := ranges]> conf))
              end
          end
      end
  end.

(** The constructor that [init] registers with [RegisterScheduler]: a config
    with an empty mapping is handed to the decoder; the scheduler is built
    around it when the decoder returns no error. *)
Definition createScheduler {Σ} (decoder : Any -> option error * Any) (σ : Σ)
  : result (World Σ) :=
  let '(err, v) := decoder (AnyConfig ∅) in
  match err with
  | Some e => Err e
  | None =>
      Ok (mkWorld (match v with AnyConfig conf => conf | AnyOther => ∅ end)
                  Unlocked σ [] ∅)
  end.

(** ** Notions used to state what the handlers do *)

(** The arguments [updateConfig] hands to [BuildWithArgs]. *)
Definition resolveArgs (input : UpdateInput) (exists_ : bool) (id : N)
    (args : list string) (conf : targets_map) : list string :=
  match ranges input with
  | Some rs => args ++ rs
  | None =>
      if exists_ then args ++ flattenRanges (default [] (conf !! id))
      else args
  end.

(** A key that percent-decoding leaves as it is: no ["%"] and no ["+"]. *)
Fixpoint plainKey (s : string) : bool :=
  match s with
  | EmptyString => true
  | String c rest =>
      negb (Ascii.eqb c "%"%char) && negb (Ascii.eqb c "+"%char) && plainKey rest
  end.

Definition plainRange (kr : KeyRange) : bool :=
  plainKey (StartKey kr) && plainKey (EndKey kr).

(** Every configured store has at least one range. *)
Definition rangesNonEmpty {Σ} (w : World Σ) : Prop :=
  forall id rs, StoreIDWitRanges w !! id = Some rs -> rs <> [].

Definition resumeEvents (order : list N) : list Event :=
  map (fun id => EvResume id constant.In) order.

(** The calls added to the trace between two states. *)
Definition callsSince {Σ} (w w' : World Σ) : list Event :=
  drop (length (trace w)) (trace w').

(** The cluster state after resuming the stores of [order] one after the
    other. *)
Definition resumeAll {Σ} `{!SchedulerCluster Σ} (order : list N) (σ : Σ) : Σ :=
  foldl (fun σ id => ResumeLeaderTransfer id constant.In σ) σ order.

(** ** Package [slice] *)

Module slice.

(** The loop of [AnyOf] over the indices [i], [i + 1], ..., [i + n - 1]: it
    stops at the first index for which [p] answers true. *)
Fixpoint anyFrom (p : nat -> bool) (i n : nat) : bool :=
  match n with
  | O => false
  | S n' => if p i then true else anyFrom p (S i) n'
  end.

(** [AnyOf(s, p)]: [p] is a predicate on the indices of [s]. *)
Definition AnyOf {T} (s : list T) (p : nat -> bool) : bool :=
  anyFrom p 0 (length s).

(** [NoneOf(s, p)]. *)
Definition NoneOf {T} (s : list T) (p : nat -> bool) : bool :=
  negb (AnyOf s p).

(** [AllOf(s, p)]. *)
Definition AllOf {T} (s : list T) (p : nat -> bool) : bool :=
  let np := fun i => negb (p i) in
  NoneOf s np.

(** [Contains(slice, value)]. *)
Fixpoint Contains {T} `{EqDecision T} (slice : list T) (value : T) : bool :=
  match slice with
  | [] => false
  | v :: rest => if decide (v = value) then true else Contains rest value
  end.

(** The loop of [Remove] on the backing array [arr]: [i] is the index read,
    [j] the index written, [n] the number of indices left to read. *)
Fixpoint Remove_loop {T} `{EqDecision T} (value : T) (n i j : nat)
    (arr : list T) : nat * list T :=
  match n with
  | O => (j, arr)
  | S n' =>
      match arr !! i with
      | Some x =>
          if decide (x = value) then Remove_loop value n' (S i) j arr
          else Remove_loop value n' (S i) (S j) (<[j := x]> arr)
      | None => (j, arr)
      end
  end.

(** [Remove(slice, value)] works in place: it returns [slice[:j]], a slice
    of the array the argument lives in; the second component is that array
    (the elements the caller's slice shows) after the call. *)
Definition Remove {T} `{EqDecision T} (slice : list T) (value : T)
  : list T * list T :=
  let '(j, arr) := Remove_loop value (length slice) 0 0 slice in
  (take j arr, arr).

(** The loop of [EqualWithoutOrder] over the items of [a]. *)
Fixpoint allContained {T} `{EqDecision T} (a b : list T) : bool :=
  match a with
  | [] => true
  | item :: rest => if negb (Contains b item) then false else allContained rest b
  end.

(** [EqualWithoutOrder(a, b)]. *)
Definition EqualWithoutOrder {T} `{EqDecision T} (a b : list T) : bool :=
  if negb (length a =? length b)%nat then false else allContained a b.

End slice.

(** ** The configuration of the TSO service *)

Module tso.

(** [time.Duration]: nanoseconds in an [int64]. *)
Definition Millisecond : Z := 1000000.
Definition Second : Z := 1000000000.
Definition Hour : Z := 3600000000000.

Definition defaultMaxResetTSGap : Z := (24 * Hour)%Z.
Definition defaultName : string := "tso".
Definition defaultBackendEndpoints : string := "http://127.0.0.1:2379".
Definition defaultListenAddr : string := "http://127.0.0.1:3379".
Definition defaultTSOUpdatePhysicalInterval : Z := (50 * Millisecond)%Z.
Definition maxTSOUpdatePhysicalInterval : Z := (10 * Second)%Z.
Definition minTSOUpdatePhysicalInterval : Z := (1 * Millisecond)%Z.

(** The fields of [Config] that [Adjust] reads or writes itself (the
    security section, which it hands to [Encryption.Adjust], is left to that
    collaborator). *)
Record Config : Type := mkConfig {
  BackendEndpoints : string;
  ListenAddr : string;
  AdvertiseListenAddr : string;
  Name : string;
  LeaderLease : Z;
  TSOSaveInterval : Z;
  TSOUpdatePhysicalInterval : Z;
  MaxResetTSGap : Z;
  WarningMsgs : list string;
  LogDisableErrorVerbose : bool;
  LogFormat : string;
  LogLevel : string;
}.

(** What [Adjust] asks of the metadata of the configuration file. *)
Record MetaData : Type := mkMetaData {
  CheckUndecoded : option string;        (* the text of the error, if any *)
  LogDisableErrorVerboseDefined : bool;  (* Child("log").IsDefined(..) *)
}.

Section Adjust.

(** Package [configutil], package [constant], [os.Hostname] and
    [Security.Encryption.Adjust] are not part of this file. *)
Variable AdjustString : string -> string -> string.
Variable AdjustDuration : Z -> Z -> Z.
Variable AdjustInt64 : Z -> Z -> Z.
Variable DefaultLeaderLease : Z.
Variable DefaultDisableErrorVerbose : bool.
Variable DefaultLogFormat DefaultLogLevel : string.
Variable Hostname : result string.
Variable EncryptionAdjust : option error.

(** A constant expression of the source: the product is exact. *)
Definition defaultTSOSaveInterval : Z := (DefaultLeaderLease * Second)%Z.

(** [Config.adjustLog]. *)
Definition adjustLog (meta : MetaData) (c : Config) : Config :=
  mkConfig (BackendEndpoints c) (ListenAddr c) (AdvertiseListenAddr c) (Name c)
    (LeaderLease c) (TSOSaveInterval c) (TSOUpdatePhysicalInterval c)
    (MaxResetTSGap c) (WarningMsgs c)
    (if negb (LogDisableErrorVerboseDefined meta)
     then DefaultDisableErrorVerbose else LogDisableErrorVerbose c)
    (AdjustString (LogFormat c) DefaultLogFormat)
    (AdjustString (LogLevel c) DefaultLogLevel).

(** [Config.Adjust] after the name has been settled. *)
Definition adjustRest (meta : MetaData) (name : string) (warnings : list string)
    (c : Config) : option error * Config :=
  let backend := AdjustString (BackendEndpoints c) defaultBackendEndpoints in
  let listen := AdjustString (ListenAddr c) defaultListenAddr in
  let advertise := AdjustString (AdvertiseListenAddr c) listen in
  let gap := AdjustDuration (MaxResetTSGap c) defaultMaxResetTSGap in
  let lease := AdjustInt64 (LeaderLease c) DefaultLeaderLease in
  let save := AdjustDuration (TSOSaveInterval c) defaultTSOSaveInterval in
  let interval :=
    AdjustDuration (TSOUpdatePhysicalInterval c) defaultTSOUpdatePhysicalInterval in
  let interval :=
    if (maxTSOUpdatePhysicalInterval <? interval)%Z
    then maxTSOUpdatePhysicalInterval
    else if (interval <? minTSOUpdatePhysicalInterval)%Z
         then minTSOUpdatePhysicalInterval
         else interval in
  (EncryptionAdjust,
   adjustLog meta
     (mkConfig backend listen advertise name lease save interval gap warnings
               (LogDisableErrorVerbose c) (LogFormat c) (LogLevel c))).

(** [Config.Adjust]: the error it returns and the config after the call. *)
Definition Adjust (meta : MetaData) (c : Config) : option error * Config :=
  let warnings :=
    match CheckUndecoded meta with
    | Some msg => WarningMsgs c ++ [msg]
    | None => WarningMsgs c
    end in
  if String.eqb (Name c) "" then
    match Hostname with
    | Err e =>
        (Some e,
         mkConfig (BackendEndpoints c) (ListenAddr c) (AdvertiseListenAddr c)
           (Name c) (LeaderLease c) (TSOSaveInterval c)
           (TSOUpdatePhysicalInterval c) (MaxResetTSGap c) warnings
           (LogDisableErrorVerbose c) (LogFormat c) (LogLevel c))
    | Ok hostname =>
        adjustRest meta
          (AdjustString (Name c) (String.append defaultName (String.append "-" hostname)))
          warnings c
    end
  else adjustRest meta (Name c) warnings c.

End Adjust.

(** Helpers to run [Adjust] on examples: a value that is empty (zero) is
    replaced by the default. *)
Definition adjustStringDefault (v def : string) : string :=
  if String.eqb v "" then def else v.
Definition adjustNumberDefault (v def : Z) : Z :=
  if (v =? 0)%Z then def else v.

(** A config file that sets the interval to one minute and nothing else,
    on a host whose name can be read. *)
Definition sample : Config :=
  mkConfig "" "" "" "" 0 0 (60 * Second) 0 [] false "" "".

Definition sampleAdjust (hostname : result string) (meta : MetaData)
    (c : Config) : option error * Config :=
  Adjust adjustStringDefault adjustNumberDefault adjustNumberDefault 3 true
         "text" "info" hostname None meta c.

End tso.


(** ** Parsing and printing store IDs *)

Example unescape_ex1 : url.QueryUnescape "a%2Fb+c" = Ok "a/b c".
Proof. reflexivity. Qed.

Example unescape_ex2 : url.QueryUnescape "100%zz1" = Err (ErrEscape "%zz").
Proof. reflexivity. Qed.

Example parse_ex1 : strconv.ParseUint "007" = Ok 7.
Proof. reflexivity. Qed.

Example parse_ex2 : strconv.ParseUint "" = Err (ErrSyntax "").
Proof. reflexivity. Qed.

Example parse_ex3 :
  strconv.ParseUint "18446744073709551616" = Err (ErrRange "18446744073709551616").
Proof. vm_compute. reflexivity. Qed.

Example parse_ex4 :
  strconv.ParseUint "18446744073709551615" = Ok 18446744073709551615.
Proof. vm_compute. reflexivity. Qed.

Example parse_ex5 : strconv.ParseUint "-1" = Err (ErrSyntax "-1").
Proof. reflexivity. Qed.

(** The range is checked while reading: digits that overflow before a byte
    that is no digit give a range error, a byte that is no digit before they
    overflow gives a syntax error. *)
Example parse_ex6 :
  strconv.ParseUint "18446744073709551616x" = Err (ErrRange "18446744073709551616x")
  /\ strconv.ParseUint "1844674407370955161x6" = Err (ErrSyntax "1844674407370955161x6")
  /\ strconv.ParseUint "99999999999999999999" = Err (ErrRange "99999999999999999999").
Proof. by vm_compute. Qed.

Example format_ex1 : strconv.FormatUint 0 = "0".
Proof. reflexivity. Qed.

(** One digit read without overflow. *)
Lemma ParseUint_loop_step (s0 : string) (c : ascii) (rest : string) (n : N) :
  strconv.isDigit c = true ->
  n * 10 + (N_of_ascii c - 48) < strconv.maxUint64 ->
  strconv.ParseUint_loop s0 (String c rest) n
  = strconv.ParseUint_loop s0 rest (n * 10 + (N_of_ascii c - 48)).
Proof.
  intros Hc Hlt. cbn [strconv.ParseUint_loop]. rewrite Hc.
  change strconv.maxUint64 with 18446744073709551616 in *.
  change ((18446744073709551616 - 1) / 10 + 1) with 1844674407370955162.
  change (18446744073709551616 - 1) with 18446744073709551615.
  destruct (N.leb_spec 1844674407370955162 n); [lia|].
  cbv zeta.
  destruct (N.ltb_spec 18446744073709551615 (n * 10 + (N_of_ascii c - 48)));
    [lia|done].
Qed.

(** The loop on the digits of a decimal numeral. *)
Lemma ParseUint_loop_digits (s0 : string) (d : Decimal.uint) (n : N) :
  n * 10 ^ Unsigned.usize d + Unsigned.of_lu (Decimal.rev d) < strconv.maxUint64 ->
  strconv.ParseUint_loop s0 (NilEmpty.string_of_uint d) n
  = Ok (n * 10 ^ Unsigned.usize d + Unsigned.of_lu (Decimal.rev d)).
Proof.
  revert n.
  induction d as [|d IH|d IH|d IH|d IH|d IH|d IH|d IH|d IH|d IH|d IH];
    intros n; simpl NilEmpty.string_of_uint; simpl Unsigned.usize;
    [ intros _; simpl; f_equal; lia | .. ];
    unfold Decimal.rev; simpl Decimal.revapp;
    rewrite Unsigned.of_lu_revapp; simpl Unsigned.of_lu;
    rewrite N.pow_succ_r';
    fold (Decimal.rev d);
    (assert (HP : 10 ^ Unsigned.usize d <> 0) by (apply N.pow_nonzero; lia));
    intros Hlt;
    (rewrite ParseUint_loop_step; [ | reflexivity | simpl N_of_ascii; nia ]);
    simpl N_of_ascii;
    (rewrite IH; [ f_equal; lia | nia ]).
Qed.

Lemma ParseUint_FormatUint (n : N) :
  n < strconv.maxUint64 -> strconv.ParseUint (strconv.FormatUint n) = Ok n.
Proof.
  intros Hn. unfold strconv.ParseUint, strconv.FormatUint, NilZero.string_of_uint.
  assert (Hd : N.to_uint n <> Decimal.Nil).
  { destruct n as [|p]; [discriminate|]. apply DecimalPos.Unsigned.to_uint_nonnil. }
  assert (Hv : Unsigned.of_lu (Decimal.rev (N.to_uint n)) = n).
  { rewrite <- Unsigned.of_uint_alt. apply DecimalN.Unsigned.of_to. }
  pose proof (ParseUint_loop_digits (NilEmpty.string_of_uint (N.to_uint n))
                (N.to_uint n) 0) as Hloop.
  rewrite Hv in Hloop. simpl in Hloop. specialize (Hloop Hn).
  destruct (N.to_uint n) eqn:E; [done|..]; exact Hloop.
Qed.

Lemma ParseUint_loop_bound (s0 s : string) (acc n : N) :
  acc < strconv.maxUint64 ->
  strconv.ParseUint_loop s0 s acc = Ok n -> n < strconv.maxUint64.
Proof.
  revert acc. induction s as [|c rest IH]; intros acc Hacc; simpl.
  - by intros [= <-].
  - destruct (strconv.isDigit c); [|discriminate].
    destruct (_ <=? acc); [discriminate|].
    match goal with
    | |- context [?a <? ?b] => destruct (N.ltb_spec a b) as [Ho|Ho]
    end; [discriminate|].
    apply IH. unfold strconv.maxUint64 in *. lia.
Qed.

Lemma ParseUint_bound (s : string) (n : N) :
  strconv.ParseUint s = Ok n -> n < strconv.maxUint64.
Proof.
  unfold strconv.ParseUint. destruct s; [discriminate|].
  by apply ParseUint_loop_bound.
Qed.

(** ** Decoding the range arguments *)

(** Induction over argument lists two elements at a time, as the loop of
    [getKeyRanges] consumes them. *)
Lemma pairs_ind (P : list string -> Prop) :
  P [] -> (forall a, P [a]) ->
  (forall a0 a1 rest, P rest -> P (a0 :: a1 :: rest)) ->
  forall args, P args.
Proof.
  intros Hnil Hone Hstep args.
  cut (P args /\ forall a, P (a :: args)); [by intros []|].
  induction args as [|a args [IH1 IH2]]; split; auto.
Qed.

Lemma getKeyRanges_loop_error (args : list string) (acc : list KeyRange) (e : error) :
  getKeyRanges_loop args acc = Err e ->
  exists a, a ∈ args /\ url.QueryUnescape a = Err e.
Proof.
  revert acc. induction args as [|a|a0 a1 rest IH] using pairs_ind;
    intros acc; simpl; try discriminate.
  destruct (url.QueryUnescape a0) as [k0|e0] eqn:E0.
  - destruct (url.QueryUnescape a1) as [k1|e1] eqn:E1.
    + intros Hloop. apply IH in Hloop as (a & Ha & Hd).
      exists a. split; [|done]. by do 2 apply list_elem_of_further.
    + intros [= <-]. exists a1. split; [|done].
      apply list_elem_of_further, list_elem_of_here.
  - intros [= <-]. exists a0. split; [|done]. apply list_elem_of_here.
Qed.

Lemma getKeyRanges_error (args : list string) (e : error) :
  getKeyRanges args = Err e ->
  exists a, a ∈ args /\ url.QueryUnescape a = Err e.
Proof.
  unfold getKeyRanges.
  destruct (getKeyRanges_loop args []) as [rs|e'] eqn:E.
  - by destruct (length rs =? 0)%nat.
  - intros [= <-]. by eapply getKeyRanges_loop_error.
Qed.

Lemma getKeyRanges_short (args : list string) :
  (length args <= 1)%nat -> getKeyRanges args = Ok [NewKeyRange "" ""].
Proof.
  destruct args as [|a0 [|a1 rest]]; simpl; intros; try lia; reflexivity.
Qed.

Lemma lastError_from (acc : option error) (rs : list (option error)) :
  foldl (fun acc r => match r with Some e => Some e | None => acc end) acc rs
  = match lastError rs with Some e => Some e | None => acc end.
Proof.
  unfold lastError. revert acc.
  induction rs as [|r rs IH] using rev_ind; intros acc; [done|].
  rewrite !foldl_app. simpl. destruct r; [done|]. apply IH.
Qed.


(** ** The lock *)

Lemma bind_run {Σ A B} (m : M Σ A) (k : A -> M Σ B) (w : World Σ) :
  (m ≫= k) w
  = match m w with Returns a w' => k a w' | NoReturn w' => NoReturn w' end.
Proof. reflexivity. Qed.

Lemma setMu_same {Σ} (w : World Σ) : setMu (mu w) w = w.
Proof. by destruct w. Qed.

Lemma setMu_setMu {Σ} (m m' : RWMutex) (w : World Σ) :
  setMu m (setMu m' w) = setMu m w.
Proof. done. Qed.

Section Locking.

Context {Σ : Type}.
Context `{!SchedulerCluster Σ, !Filters Σ, !OperatorController Σ, !ConfigStorage Σ}.

Lemma keepsLock_mu {A} (f : World Σ -> A * World Σ) (w : World Σ) :
  keepsLock f -> mu (f w).2 = mu w.
Proof.
  intros Hf. pose proof (Hf w (mu w)) as H. rewrite setMu_same in H.
  by rewrite H.
Qed.

Lemma readLocked_unlocked {A} (f : World Σ -> A * World Σ) (w : World Σ) :
  keepsLock f -> mu w = Unlocked ->
  readLocked f w = Returns (f w).1 (f w).2.
Proof.
  intros Hf Hmu. unfold readLocked. rewrite bind_run. unfold RLock at 1.
  rewrite Hmu. rewrite bind_run. unfold lift at 1. rewrite Hf. simpl.
  rewrite bind_run. unfold RUnlock. simpl. unfold mret, M_ret.
  by rewrite setMu_setMu, <- Hmu, <- (keepsLock_mu f w Hf), setMu_same.
Qed.

Lemma readLocked_wlocked {A} (f : World Σ -> A * World Σ) (w : World Σ) :
  mu w = WLocked -> readLocked f w = NoReturn w.
Proof.
  intros Hmu. unfold readLocked. rewrite bind_run. unfold RLock. by rewrite Hmu.
Qed.

(** Whatever the state of the lock, a read-locked body that keeps the mapping
    leaves the mapping as it was. *)
Lemma readLocked_frame {A} (f : World Σ -> A * World Σ) (w : World Σ) :
  (forall w, StoreIDWitRanges (f w).2 = StoreIDWitRanges w) ->
  StoreIDWitRanges (stateOf (readLocked f w)) = StoreIDWitRanges w.
Proof.
  intros Hf. unfold readLocked. rewrite bind_run. unfold RLock at 1.
  destruct (mu w) eqn:Hmu; [| |done].
  - rewrite bind_run. unfold lift at 1.
    pose proof (Hf (setMu (RLocked 0) w)) as Hc.
    destruct (f (setMu (RLocked 0) w)) as [a w1]. simpl in Hc.
    rewrite bind_run. unfold RUnlock. by destruct (mu w1) as [|[|n]|].
  - rewrite bind_run. unfold lift at 1.
    pose proof (Hf (setMu (RLocked (S n)) w)) as Hc.
    destruct (f (setMu (RLocked (S n)) w)) as [a w1]. simpl in Hc.
    rewrite bind_run. unfold RUnlock. by destruct (mu w1) as [|[|n']|].
Qed.

Lemma keepsLock_saveConfig : keepsLock saveConfig.
Proof.
  intros w m. unfold saveConfig, callSave. simpl.
  destruct (EncodeConfig (StoreIDWitRanges w)) as [data|e]; [|done].
  by destruct (SaveSchedulerConfig EvictLeaderName data (env w)).
Qed.

Lemma BuildWithArgs_unlocked (args : list string) (w : World Σ) :
  mu w = Unlocked ->
  BuildWithArgs args w
  = match decodeArgs args with
    | Err e => Returns (Some e) w
    | Ok (id, rs) => Returns None (setConf (<[id := rs]> (StoreIDWitRanges w)) w)
    end.
Proof.
  intros Hmu. unfold BuildWithArgs, decodeArgs.
  destruct args as [|a0 rest]; [done|].
  destruct (strconv.ParseUint a0) as [id|e]; [|done].
  destruct (getKeyRanges rest) as [rs|e]; [|done].
  rewrite bind_run. unfold Lock. rewrite Hmu.
  destruct w; simpl in *; by subst.
Qed.

Lemma BuildWithArgs_error (args : list string) (w w' : World Σ) (e : error) :
  BuildWithArgs args w = Returns (Some e) w' ->
  w' = w /\ decodeArgs args = Err e.
Proof.
  unfold BuildWithArgs, decodeArgs.
  destruct args as [|a0 rest]; [by intros [= <- <-]|].
  destruct (strconv.ParseUint a0) as [id|e']; [|by intros [= <- <-]].
  destruct (getKeyRanges rest) as [rs|e']; [|by intros [= <- <-]].
  rewrite bind_run. unfold Lock. by destruct (mu w).
Qed.

Lemma BuildWithArgs_frame_others (args : list string) (w : World Σ) :
  env (stateOf (BuildWithArgs args w)) = env w
  /\ trace (stateOf (BuildWithArgs args w)) = trace w
  /\ limitCounter (stateOf (BuildWithArgs args w)) = limitCounter w.
Proof.
  unfold BuildWithArgs.
  destruct args as [|a0 rest]; [done|].
  destruct (strconv.ParseUint a0) as [id|e']; [|done].
  destruct (getKeyRanges rest) as [rs|e']; [|done].
  rewrite bind_run. unfold Lock. by destruct (mu w).
Qed.

End Locking.

(** ** The configuration store *)

Section ConfigStore.

Context {Σ : Type}.
Context `{!SchedulerCluster Σ, !Filters Σ, !OperatorController Σ, !ConfigStorage Σ}.

(** C5: with the lock free, two calls of BuildWithArgs for the same store,
    the second of which decodes to the range list [r2], both return; the
    second returns no error and leaves that store with exactly [r2], in the
    very state a single call with the second argument list produces, and
    every other store keeps its entry. *)
Theorem BuildWithArgs_replaces (w : World Σ) (S : N)
    (a1 a2 : string) (rest1 rest2 : list string) (r2 : list KeyRange) :
  mu w = Unlocked ->
  strconv.ParseUint a1 = Ok S ->
  strconv.ParseUint a2 = Ok S ->
  getKeyRanges rest2 = Ok r2 ->
  let first := BuildWithArgs (a1 :: rest1) w in
  let second := BuildWithArgs (a2 :: rest2) (stateOf first) in
  returns first = true
  /\ second = Returns None (stateOf second)
  /\ StoreIDWitRanges (stateOf second) !! S = Some r2
  /\ second = BuildWithArgs (a2 :: rest2) w
  /\ forall S', S' <> S ->
       StoreIDWitRanges (stateOf second) !! S' = StoreIDWitRanges w !! S'.
Proof.
  intros Hmu Hp1 Hp2 Hr2 first second.
  assert (H2 : forall w0 : World Σ, mu w0 = Unlocked ->
            BuildWithArgs (a2 :: rest2) w0
            = Returns None (setConf (<[S := r2]> (StoreIDWitRanges w0)) w0)).
  { intros w0 H0. rewrite BuildWithArgs_unlocked by done.
    unfold decodeArgs. by rewrite Hp2, Hr2. }
  assert (H1 : returns first = true /\ mu (stateOf first) = Unlocked
               /\ setConf (<[S := r2]> (StoreIDWitRanges (stateOf first))) (stateOf first)
                  = setConf (<[S := r2]> (StoreIDWitRanges w)) w).
  { subst first. rewrite BuildWithArgs_unlocked by done.
    unfold decodeArgs. rewrite Hp1.
    destruct (getKeyRanges rest1) as [r1|e]; simpl; [|done].
    split_and!; [done..|]. unfold setConf; simpl. by rewrite insert_insert_eq. }
  destruct H1 as (Hret & Hmu1 & Hsame).
  subst second. rewrite (H2 _ Hmu1), (H2 _ Hmu), Hsame. simpl.
  split_and!; try done.
  - apply lookup_insert_eq.
  - intros S' HS'. by apply lookup_insert_ne.
Qed.

(** C6: with the lock free, an argument list whose first element parses as
    a store ID and which has at most one further argument (no complete
    start/end pair) always builds: the call returns no error and sets that
    store's ranges to the single range with empty start and end key. *)
Theorem BuildWithArgs_sentinel (w : World Σ) (a0 : string)
    (rest : list string) (id : N) :
  mu w = Unlocked ->
  strconv.ParseUint a0 = Ok id ->
  (length rest <= 1)%nat ->
  BuildWithArgs (a0 :: rest) w
  = Returns None (setConf (<[id := [{| StartKey := ""; EndKey := "" |}]]>
                             (StoreIDWitRanges w)) w).
Proof.
  intros Hmu Hp Hlen. rewrite BuildWithArgs_unlocked by done.
  unfold decodeArgs. by rewrite Hp, (getKeyRanges_short rest Hlen).
Qed.

(** C9: when BuildWithArgs returns an error the state, and with it the
    mapping, is the one before the call, and the error is the missing store
    ID, the failed parse of the first argument, or the failed decoding of one
    of the range arguments. *)
Theorem BuildWithArgs_failure_mutates_nothing (args : list string)
    (w w' : World Σ) (e : error) :
  BuildWithArgs args w = Returns (Some e) w' ->
  w' = w
  /\ StoreIDWitRanges w' = StoreIDWitRanges w
  /\ (args = []
      \/ (exists a0 rest, args = a0 :: rest /\ strconv.ParseUint a0 = Err e)
      \/ (exists a0 rest a, args = a0 :: rest /\ a ∈ rest
                           /\ url.QueryUnescape a = Err e)).
Proof.
  intros Hb. apply BuildWithArgs_error in Hb as [-> Hd].
  split_and!; try done.
  unfold decodeArgs in Hd. destruct args as [|a0 rest]; [by left|].
  destruct (strconv.ParseUint a0) as [id|e'] eqn:Hp.
  - destruct (getKeyRanges rest) as [rs|e'] eqn:Hr; [done|].
    injection Hd as ->. right; right.
    destruct (getKeyRanges_error _ _ Hr) as (a & Ha & Hdec).
    by exists a0, rest, a.
  - injection Hd as ->. right; left. by exists a0, rest.
Qed.

End ConfigStore.

(** ** Lifecycle hooks, admission gate and scheduling tick *)

Section Scheduler.

Context {Σ : Type}.
Context `{!SchedulerCluster Σ, !Filters Σ, !OperatorController Σ, !ConfigStorage Σ}.

(** C3: IsScheduleAllowed answers true exactly when the operator
    controller's count of leader operators is strictly below the cluster's
    leader-schedule limit; a call that answers false adds exactly one to the
    rejection counter tagged with the scheduler type and the leader class
    and changes nothing else, a call that answers true changes nothing. *)
Theorem IsScheduleAllowed_gate (w : World Σ) :
  let '(allowed, w') := IsScheduleAllowed w in
  (allowed = true <->
     OperatorCount operator.OpLeader (env w) < GetLeaderScheduleLimit (env w))
  /\ (if allowed then w' = w
      else counterValue GetType operator.OpLeader w'
           = counterValue GetType operator.OpLeader w + 1
           /\ (forall typ kind,
                 (typ, kind) <> (GetType, operator.OpLeader) ->
                 counterValue typ kind w' = counterValue typ kind w)
           /\ StoreIDWitRanges w' = StoreIDWitRanges w /\ mu w' = mu w
           /\ env w' = env w /\ trace w' = trace w).
Proof.
  unfold IsScheduleAllowed.
  destruct (N.ltb_spec (OperatorCount operator.OpLeader (env w))
                       (GetLeaderScheduleLimit (env w))) as [Hlt|Hge]; simpl.
  - split; [by split|done].
  - split; [split; [discriminate|lia]|].
    unfold counterValue, IncOperatorLimitCounter; simpl.
    split_and!; try done.
    + by rewrite lookup_insert_eq.
    + intros typ kind Hne. by rewrite lookup_insert_ne.
Qed.

Lemma pauseLoop_from (order : list N) (res0 : option error) (w : World Σ) :
  foldl (fun '(res, w) id =>
           let '(err, w') := callPause id w in
           (match err with Some e => Some e | None => res end, w'))
        (res0, w) order
  = (foldl (fun acc r => match r with Some e => Some e | None => acc end)
           res0 (pauseAll order (env w)).1,
     mkWorld (StoreIDWitRanges w) (mu w) (pauseAll order (env w)).2
             (trace w ++ pauseEvents order (pauseAll order (env w)).1)
             (limitCounter w)).
Proof.
  revert res0 w. induction order as [|id order IH]; intros res0 w; simpl.
  - rewrite app_nil_r. by destruct w.
  - unfold callPause at 2.
    destruct (PauseLeaderTransfer id constant.In (env w)) as [r σ1] eqn:Hp.
    rewrite IH; simpl.
    destruct (pauseAll order σ1) as [rs σ2]; simpl.
    by rewrite <- app_assoc.
Qed.

Lemma pauseLoop_spec (order : list N) (w : World Σ) :
  pauseLoop order w
  = (lastError (pauseAll order (env w)).1,
     mkWorld (StoreIDWitRanges w) (mu w) (pauseAll order (env w)).2
             (trace w ++ pauseEvents order (pauseAll order (env w)).1)
             (limitCounter w)).
Proof. apply pauseLoop_from. Qed.

Lemma keepsLock_pauseLoop (order : list N) : keepsLock (pauseLoop order).
Proof. intros w m. by rewrite !pauseLoop_spec. Qed.

Lemma pauseAll_length (order : list N) (σ : Σ) :
  length (pauseAll order σ).1 = length order.
Proof.
  revert σ. induction order as [|id order IH]; intros σ; simpl; [done|].
  destruct (PauseLeaderTransfer id constant.In σ) as [r σ1].
  specialize (IH σ1). destruct (pauseAll order σ1) as [rs σ2]; simpl in *.
  by rewrite IH.
Qed.




Lemma scheduleLoop_from (order : list (N * list KeyRange))
    (ops0 : list operator.Operator) (w : World Σ) :
  let r := foldl (fun '(ops, w) '(id, rs) =>
             let '(op, σ) := scheduleStore id rs (env w) in
             (match op with Some op => ops ++ [op] | None => ops end,
              withEnv σ w))
          (ops0, w) order in
  r.1 = ops0 ++ omap id (scheduleOutcomes order (env w))
  /\ exists σ, r.2 = withEnv σ w
     /\ forall m, (foldl (fun '(ops, w) '(id, rs) =>
             let '(op, σ) := scheduleStore id rs (env w) in
             (match op with Some op => ops ++ [op] | None => ops end,
              withEnv σ w))
          (ops0, setMu m w) order).2 = withEnv σ (setMu m w).
Proof.
  revert ops0 w. induction order as [|[id rs] order IH]; intros ops0 w; simpl.
  - rewrite app_nil_r. split; [done|]. exists (env w). by destruct w.
  - destruct (scheduleStore id rs (env w)) as [op σ] eqn:Hs.
    specialize (IH (match op with Some op => ops0 ++ [op] | None => ops0 end)
                   (withEnv σ w)).
    simpl in IH. destruct IH as (-> & σ' & -> & Hm).
    split.
    + destruct op; simpl; [by rewrite <- app_assoc|done].
    + exists σ'. split; [done|]. intros m. apply (Hm m).
Qed.

Lemma scheduleLoop_spec (order : list (N * list KeyRange)) (w : World Σ) :
  (scheduleLoop order w).1 = omap id (scheduleOutcomes order (env w))
  /\ exists σ, (scheduleLoop order w).2 = withEnv σ w
     /\ forall m, (scheduleLoop order (setMu m w)).2 = withEnv σ (setMu m w).
Proof. apply (scheduleLoop_from order [] w). Qed.

Lemma keepsLock_scheduleLoop (order : list (N * list KeyRange)) :
  keepsLock (scheduleLoop order).
Proof.
  intros w m.
  destruct (scheduleLoop_spec order w) as (Hops & σ & Hw & Hm).
  destruct (scheduleLoop_spec order (setMu m w)) as (Hops' & _).
  rewrite Hw. rewrite (surjective_pairing (scheduleLoop order (setMu m w))).
  by rewrite Hops', Hm, Hops.
Qed.

Lemma scheduleOutcomes_length (order : list (N * list KeyRange)) (σ : Σ) :
  length (scheduleOutcomes order σ) = length order.
Proof.
  revert σ. induction order as [|[id rs] order IH]; intros σ; simpl; [done|].
  destruct (scheduleStore id rs σ) as [op σ']. simpl. by rewrite IH.
Qed.

Lemma omap_id_length {A} (l : list (option A)) :
  (length (omap id l) <= length l)%nat.
Proof. induction l as [|[a|] l IH]; cbn in *; lia. Qed.

Lemma omap_id_all_None {A} (l : list (option A)) :
  Forall (fun o => o = None) l -> omap id l = [].
Proof. induction 1 as [|o l -> _ IH]; cbn; done. Qed.

(** C4: with the lock free, one call of Schedule, visiting the entries of
    the mapping in any order, returns after running the loop body once per
    configured store; each run appends at most one operator, so the operators
    returned are the per-store outcomes that produced one, in order, and
    there are at most as many as configured stores; when no store produces an
    operator the result is the empty sequence (with no plan), and there is no
    error result at all. *)
Theorem Schedule_at_most_one_per_store (order : list (N * list KeyRange))
    (w : World Σ) :
  mu w = Unlocked ->
  order ≡ₚ map_to_list (StoreIDWitRanges w) ->
  let out := Schedule order w in
  let outcomes := scheduleOutcomes order (env w) in
  out = Returns (omap id outcomes, []) (stateOf out)
  /\ NoDup order.*1
  /\ length outcomes = size (StoreIDWitRanges w)
  /\ (length (omap id outcomes) <= size (StoreIDWitRanges w))%nat
  /\ (Forall (fun o => o = None) outcomes -> out = Returns ([], []) (stateOf out)).
Proof.
  intros Hmu Hperm out outcomes.
  assert (Hout : out = Returns (omap id outcomes, []) (stateOf out)).
  { subst out. unfold Schedule. rewrite bind_run.
    rewrite (readLocked_unlocked _ _ (keepsLock_scheduleLoop order) Hmu).
    destruct (scheduleLoop_spec order w) as (-> & _). done. }
  assert (Hlen : length outcomes = size (StoreIDWitRanges w)).
  { subst outcomes. rewrite scheduleOutcomes_length, Hperm.
    by rewrite length_map_to_list. }
  split_and!; try done.
  - rewrite Hperm. apply NoDup_fst_map_to_list.
  - rewrite <- Hlen. apply omap_id_length.
  - intros Hnone. rewrite Hout at 1. by rewrite (omap_id_all_None _ Hnone).
Qed.

Lemma resumeLoop_frame (order : list N) (w : World Σ) :
  StoreIDWitRanges (resumeLoop order w).2 = StoreIDWitRanges w.
Proof.
  unfold resumeLoop. simpl. revert w.
  induction order as [|id order IH]; intros w; simpl; [done|].
  by rewrite IH.
Qed.

Lemma saveConfig_spec (w : World Σ) :
  StoreIDWitRanges (saveConfig w).2 = StoreIDWitRanges w
  /\ mu (saveConfig w).2 = mu w
  /\ trace (saveConfig w).2 = trace w ++ persistEvents w
  /\ limitCounter (saveConfig w).2 = limitCounter w.
Proof.
  unfold saveConfig, callSave, persistEvents.
  destruct (EncodeConfig (StoreIDWitRanges w)) as [data|e]; simpl.
  - by destruct (SaveSchedulerConfig EvictLeaderName data (env w)).
  - by rewrite app_nil_r.
Qed.

Lemma getRanges_unlocked (id : N) (w : World Σ) :
  mu w = Unlocked ->
  getRanges id w
  = Returns (flattenRanges (default [] (StoreIDWitRanges w !! id))) w.
Proof. intros Hmu. unfold getRanges. by rewrite readLocked_unlocked. Qed.

Lemma deleteConfig_not_found (idStr : string) (S : N) (w : World Σ) :
  mu w = Unlocked ->
  strconv.ParseUint idStr = Ok S ->
  StoreIDWitRanges w !! S = None ->
  deleteConfig idStr w
  = Returns (JSON http.StatusInternalServerError
                  (BodyErrorValue (ErrNew "the config does not exist"))) w.
Proof.
  intros Hmu Hp Hnone. unfold deleteConfig. rewrite Hp.
  rewrite bind_run. unfold Lock. rewrite Hmu.
  destruct w as [m l σ tr lc]; simpl in *; subst.
  rewrite bind_run. unfold lift. simpl. by rewrite Hnone.
Qed.

(** C8: with the lock free, deleting a store ID that the mapping does not
    hold returns an error answer and leaves the whole state as it was: the
    mapping, the cluster and the storage are unchanged and no call (no
    resume, no save) is issued. *)
Theorem deleteConfig_absent (idStr : string) (S : N) (w : World Σ) :
  mu w = Unlocked ->
  strconv.ParseUint idStr = Ok S ->
  StoreIDWitRanges w !! S = None ->
  let out := deleteConfig idStr w in
  out = Returns (JSON http.StatusInternalServerError
                      (BodyErrorValue (ErrNew "the config does not exist"))) w
  /\ StoreIDWitRanges (stateOf out) = StoreIDWitRanges w
  /\ env (stateOf out) = env w
  /\ trace (stateOf out) = trace w.
Proof.
  intros Hmu Hp Hnone out. subst out.
  by rewrite (deleteConfig_not_found idStr S w Hmu Hp Hnone).
Qed.

(** C10: Schedule, Clone, Persist, EncodeConfig, getRanges, PrepareConfig
    and CleanConfig leave the mapping as it was, whatever the order in which
    the loops visit it and whatever the state of the lock (also when the call
    waits for the lock for ever); with the lock free, getRanges of a store ID
    that the mapping does not hold returns the empty sequence in an unchanged
    state, so no entry is added. *)
Theorem read_side_keeps_targets (w : World Σ) (id : N)
    (entries : list (N * list KeyRange)) (keys : list N) :
  StoreIDWitRanges (stateOf (Schedule entries w)) = StoreIDWitRanges w
  /\ StoreIDWitRanges (stateOf (Clone w)) = StoreIDWitRanges w
  /\ StoreIDWitRanges (stateOf (Persist w)) = StoreIDWitRanges w
  /\ StoreIDWitRanges (stateOf (Scheduler_EncodeConfig w)) = StoreIDWitRanges w
  /\ StoreIDWitRanges (stateOf (getRanges id w)) = StoreIDWitRanges w
  /\ StoreIDWitRanges (stateOf (PrepareConfig keys w)) = StoreIDWitRanges w
  /\ StoreIDWitRanges (stateOf (CleanConfig keys w)) = StoreIDWitRanges w
  /\ (mu w = Unlocked -> StoreIDWitRanges w !! id = None ->
      getRanges id w = Returns [] w).
Proof.
  split_and!.
  - unfold Schedule. rewrite bind_run.
    pose proof (readLocked_frame (scheduleLoop entries) w) as Hf.
    destruct (readLocked (scheduleLoop entries) w) as [ops w'|w']; simpl in *;
      apply Hf; intros w0;
      destruct (scheduleLoop_spec entries w0) as (_ & σ & -> & _); done.
  - by apply readLocked_frame.
  - apply readLocked_frame. intros w0. apply saveConfig_spec.
  - by apply readLocked_frame.
  - by apply readLocked_frame.
  - apply readLocked_frame. intros w0. by rewrite pauseLoop_spec.
  - apply readLocked_frame. apply resumeLoop_frame.
  - intros Hmu Hnone. rewrite getRanges_unlocked by done. by rewrite Hnone.
Qed.

End Scheduler.

(** ** The HTTP control plane *)

Lemma pauseCalls_app (S : N) (t1 t2 : list Event) :
  pauseCalls S (t1 ++ t2) = (pauseCalls S t1 + pauseCalls S t2)%nat.
Proof. unfold pauseCalls. by rewrite List.filter_app, length_app. Qed.

Lemma resumeCalls_app (S : N) (t1 t2 : list Event) :
  resumeCalls S (t1 ++ t2) = (resumeCalls S t1 + resumeCalls S t2)%nat.
Proof. unfold resumeCalls. by rewrite List.filter_app, length_app. Qed.



Lemma pauseCalls_resume (S id : N) (d : constant.Direction) :
  pauseCalls S [EvResume id d] = 0%nat.
Proof. done. Qed.

Lemma resumeCalls_pause (S id : N) (d : constant.Direction) (r : option error) :
  resumeCalls S [EvPause id d r] = 0%nat.
Proof. done. Qed.


Lemma decodeArgs_formatted (S : N) (extra : list string) :
  S < strconv.maxUint64 ->
  decodeArgs (strconv.FormatUint S :: extra)
  = match getKeyRanges extra with
    | Err e => Err e
    | Ok rs => Ok (S, rs)
    end.
Proof. intros HS. unfold decodeArgs. by rewrite ParseUint_FormatUint. Qed.

Section Handler.

Context {Σ : Type}.
Context `{!SchedulerCluster Σ, !Filters Σ, !OperatorController Σ, !ConfigStorage Σ}.

Lemma Persist_unlocked (w : World Σ) :
  mu w = Unlocked -> Persist w = Returns (saveConfig w).1 (saveConfig w).2.
Proof. intros Hmu. apply readLocked_unlocked; [apply keepsLock_saveConfig|done]. Qed.

(** [Persist] called by a handler that holds the write lock never returns. *)
Lemma Persist_wlocked (w : World Σ) : mu w = WLocked -> Persist w = NoReturn w.
Proof. apply readLocked_wlocked. Qed.

Lemma persistEvents_counts (S : N) (w : World Σ) :
  pauseCalls S (persistEvents w) = 0%nat
  /\ resumeCalls S (persistEvents w) = 0%nat
  /\ forallb pauseOk (persistEvents w) = true.
Proof. unfold persistEvents. by destruct (EncodeConfig _). Qed.




Lemma configured_same (S : N) (w w' : World Σ) :
  StoreIDWitRanges w' = StoreIDWitRanges w -> configured S w' = configured S w.
Proof. intros Hm. unfold configured. by rewrite Hm. Qed.

(** The compensation of [updateConfig] after a failed [BuildWithArgs]. *)
Lemma resume_locked (id : N) (resp : Response) (w : World Σ) :
  mu w = Unlocked ->
  (Lock ;; modify (callResume id) ;; Unlock ;; mret resp) w
  = Returns resp (callResume id w).
Proof.
  intros Hmu. rewrite bind_run. unfold Lock. rewrite Hmu.
  destruct w; simpl in *; by subst.
Qed.

(** The compensation of [updateConfig] after a failed [Persist]. *)
Lemma delete_resume_locked (id : N) (resp : Response) (w : World Σ) :
  mu w = Unlocked ->
  (Lock ;;
   modify (fun w => setConf (delete id (StoreIDWitRanges w)) w) ;;
   modify (callResume id) ;; Unlock ;; mret resp) w
  = Returns resp (callResume id (setConf (delete id (StoreIDWitRanges w)) w)).
Proof.
  intros Hmu. rewrite bind_run. unfold Lock. rewrite Hmu.
  destruct w; simpl in *; by subst.
Qed.



(** With the lock free, a delete of a configured store removes the entry,
    resumes the store and then waits for ever in [Persist], which asks for
    the read lock while the handler holds the write lock. *)
Lemma deleteConfig_configured (idStr : string) (S : N) (rs : list KeyRange)
    (w : World Σ) :
  mu w = Unlocked ->
  strconv.ParseUint idStr = Ok S ->
  StoreIDWitRanges w !! S = Some rs ->
  deleteConfig idStr w
  = NoReturn (callResume S (setConf (delete S (StoreIDWitRanges w))
                                    (setMu WLocked w))).
Proof.
  intros Hmu Hp Hsome. unfold deleteConfig. rewrite Hp.
  rewrite bind_run. unfold Lock. rewrite Hmu.
  rewrite bind_run. unfold lift at 1. simpl. rewrite Hsome.
  rewrite !bind_run. unfold modify at 1. rewrite bind_run. unfold modify at 1.
  rewrite bind_run. by rewrite Persist_wlocked.
Qed.

(** With the lock free, a delete addressed to a store that the mapping
    holds does not return: the handler takes the write lock, removes the
    entry, resumes the store and calls Persist, which waits for the read
    lock of the same lock; the state it stops in has the entry removed, the
    resume issued, nothing saved and the lock held. *)
Theorem deleteConfig_of_configured_store_blocks (idStr : string) (S : N)
    (rs : list KeyRange) (w : World Σ) :
  mu w = Unlocked ->
  strconv.ParseUint idStr = Ok S ->
  StoreIDWitRanges w !! S = Some rs ->
  let out := deleteConfig idStr w in
  returns out = false
  /\ mu (stateOf out) = WLocked
  /\ StoreIDWitRanges (stateOf out) = delete S (StoreIDWitRanges w)
  /\ trace (stateOf out) = trace w ++ [EvResume S constant.In].
Proof.
  intros Hmu Hp Hsome out. subst out.
  by rewrite (deleteConfig_configured idStr S rs w Hmu Hp Hsome).
Qed.

End Handler.

(** ** The plugin on the concrete cluster *)

Lemma BuildWithArgs_replaces_witness :
  let w : World Sim.State :=
    mkWorld {[ 7 := [NewKeyRange "p" "q"] ]} Unlocked Sim.healthy [] ∅ in
  let first := BuildWithArgs ["05"; "a"; "m"; "n"; "o"] w in
  let second := BuildWithArgs ["5"; "x"; "z"] (stateOf first) in
  returns first = true
  /\ second = Returns None (stateOf second)
  /\ StoreIDWitRanges (stateOf second) !! 5 = Some [NewKeyRange "x" "z"]
  /\ second = BuildWithArgs ["5"; "x"; "z"] w
  /\ forall S', S' <> 5 ->
       StoreIDWitRanges (stateOf second) !! S' = StoreIDWitRanges w !! S'.
Proof.
  exact (BuildWithArgs_replaces
           (mkWorld {[ 7 := [NewKeyRange "p" "q"] ]} Unlocked Sim.healthy [] ∅)
           5 "05" "5" ["a"; "m"; "n"; "o"] ["x"; "z"] [NewKeyRange "x" "z"]
           eq_refl eq_refl eq_refl eq_refl).
Defined.

Lemma BuildWithArgs_sentinel_witness :
  mu (Sim.evicting5 Sim.healthy) = Unlocked
  /\ strconv.ParseUint "5" = Ok 5
  /\ BuildWithArgs ["5"; "%zz"] (Sim.evicting5 Sim.healthy)
     = Returns None (setConf (<[5 := [{| StartKey := ""; EndKey := "" |}]]>
                                (StoreIDWitRanges (Sim.evicting5 Sim.healthy)))
                             (Sim.evicting5 Sim.healthy)).
Proof.
  split_and!; [reflexivity | reflexivity |].
  apply (BuildWithArgs_sentinel (Sim.evicting5 Sim.healthy) "5" ["%zz"] 5);
    [reflexivity | reflexivity | simpl; lia].
Defined.

Lemma BuildWithArgs_failure_mutates_nothing_witness :
  let args := ["5"; "a"; "m"; "n"; "%zz"] in
  let w := Sim.evicting5 Sim.healthy in
  BuildWithArgs args w = Returns (Some (ErrEscape "%zz")) w
  /\ (w = w
      /\ StoreIDWitRanges w = StoreIDWitRanges w
      /\ (args = []
          \/ (exists a0 rest, args = a0 :: rest
                              /\ strconv.ParseUint a0 = Err (ErrEscape "%zz"))
          \/ (exists a0 rest a, args = a0 :: rest /\ a ∈ rest
                                /\ url.QueryUnescape a = Err (ErrEscape "%zz")))).
Proof.
  exact (conj eq_refl
           (BuildWithArgs_failure_mutates_nothing
              ["5"; "a"; "m"; "n"; "%zz"] (Sim.evicting5 Sim.healthy)
              (Sim.evicting5 Sim.healthy) (ErrEscape "%zz") eq_refl)).
Defined.

Example IsScheduleAllowed_at_limit :
  let w := Sim.evicting5 Sim.saturated in
  (IsScheduleAllowed w).1 = false
  /\ counterValue GetType operator.OpLeader (IsScheduleAllowed w).2 = 1
  /\ counterValue GetType operator.OpLeader
       (IsScheduleAllowed (IsScheduleAllowed w).2).2 = 2.
Proof. by vm_compute. Qed.


Example PrepareConfig_last_error :
  let w : World Sim.State :=
    mkWorld {[ 5 := Sim.am; 6 := Sim.am; 8 := Sim.am; 7 := Sim.am ]}
            Unlocked Sim.healthy [] ∅ in
  PrepareConfig [6; 5; 8; 7] w
  = Returns (Some (ErrCollaborator 8))
      (mkWorld (StoreIDWitRanges w) Unlocked Sim.healthy
         [EvPause 6 constant.In (Some (ErrCollaborator 6));
          EvPause 5 constant.In None;
          EvPause 8 constant.In (Some (ErrCollaborator 8));
          EvPause 7 constant.In None] ∅).
Proof. reflexivity. Qed.

Lemma Schedule_at_most_one_per_store_witness :
  let w := Sim.evicting5 Sim.healthy in
  let order := map_to_list (StoreIDWitRanges w) in
  let out := Schedule order w in
  let outcomes := scheduleOutcomes order (env w) in
  out = Returns (omap id outcomes, []) (stateOf out)
  /\ NoDup order.*1
  /\ length outcomes = size (StoreIDWitRanges w)
  /\ (length (omap id outcomes) <= size (StoreIDWitRanges w))%nat
  /\ (Forall (fun o => o = None) outcomes -> out = Returns ([], []) (stateOf out)).
Proof.
  exact (Schedule_at_most_one_per_store
           (map_to_list (StoreIDWitRanges (Sim.evicting5 Sim.healthy)))
           (Sim.evicting5 Sim.healthy) eq_refl (reflexivity _)).
Defined.

Example Schedule_scenario :
  Schedule [(5, Sim.am)] (Sim.evicting5 Sim.healthy)
  = Returns
      ([operator.mkOperator GetName 1 7 operator.OpLeader constant.High], [])
      (Sim.evicting5 Sim.healthy).
Proof. reflexivity. Qed.

Example Schedule_nothing_eligible :
  Schedule [(5, Sim.am)] (Sim.evicting5 Sim.empty)
  = Returns ([], []) (Sim.evicting5 Sim.empty).
Proof. reflexivity. Qed.

Lemma deleteConfig_absent_witness :
  let w := Sim.evicting5 Sim.healthy in
  let out := deleteConfig "6" w in
  mu w = Unlocked
  /\ strconv.ParseUint "6" = Ok 6
  /\ StoreIDWitRanges w !! 6 = None
  /\ out = Returns (JSON http.StatusInternalServerError
                         (BodyErrorValue (ErrNew "the config does not exist"))) w
  /\ StoreIDWitRanges (stateOf out) = StoreIDWitRanges w
  /\ env (stateOf out) = env w
  /\ trace (stateOf out) = trace w.
Proof.
  split_and!; [reflexivity | reflexivity | reflexivity | ..];
    apply (deleteConfig_absent "6" 6 (Sim.evicting5 Sim.healthy));
    reflexivity.
Defined.

Lemma read_side_keeps_targets_witness :
  let w := Sim.evicting5 Sim.healthy in
  mu w = Unlocked
  /\ StoreIDWitRanges w !! 6 = None
  /\ getRanges 6 w = Returns [] w
  /\ StoreIDWitRanges (stateOf (Schedule [(5, Sim.am)] w)) = StoreIDWitRanges w
  /\ StoreIDWitRanges (stateOf (Persist w)) = StoreIDWitRanges w
  /\ StoreIDWitRanges (stateOf (PrepareConfig [5] w)) = StoreIDWitRanges w
  /\ StoreIDWitRanges (stateOf (CleanConfig [5] w)) = StoreIDWitRanges w.
Proof.
  destruct (read_side_keeps_targets (Sim.evicting5 Sim.healthy) 6
              [(5, Sim.am)] [5])
    as (Hschedule & _ & Hpersist & _ & _ & Hprepare & Hclean & Hget).
  split_and!; [reflexivity | reflexivity | | done..].
  apply Hget; reflexivity.
Defined.

Example getRanges_examples :
  getRanges 6 (Sim.evicting5 Sim.healthy) = Returns [] (Sim.evicting5 Sim.healthy)
  /\ getRanges 5 (Sim.evicting5 Sim.healthy)
     = Returns ["a"; "m"] (Sim.evicting5 Sim.healthy).
Proof. by vm_compute. Qed.

(** C1: on the configuration [{5: [("a","m")]}] with the lock free and the
    storage refusing writes, an update of store 5 builds, fails to persist,
    and then drops the entry of store 5 and resumes store 5, although this
    request had not paused it; the entry does not keep its old ranges. *)
Theorem updateConfig_persist_failure_drops_configured_store :
  let w := Sim.evicting5 Sim.storageDown in
  let out := serve (Sim.update 5) w in
  StoreIDWitRanges w !! 5 = Some Sim.am
  /\ BuildWithArgs ["5"; "a"; "m"] w = Returns None w
  /\ answers http.StatusInternalServerError out = true
  /\ StoreIDWitRanges (stateOf out) !! 5 = None
  /\ trace (stateOf out)
     = [EvSave EvictLeaderName "5" (Some (ErrCollaborator 1));
        EvResume 5 constant.In]
  /\ pauseCalls 5 (trace (stateOf out)) = 0%nat
  /\ resumeCalls 5 (trace (stateOf out)) = 1%nat.
Proof. by vm_compute. Qed.


Example update_runs :
  let out := serveAll [Sim.update 5; Sim.update 5] (initWorld Sim.healthy) in
  returns out = true
  /\ StoreIDWitRanges (stateOf out) !! 5 = Some [NewKeyRange "" ""]
  /\ pauseCalls 5 (trace (stateOf out)) = 1%nat
  /\ resumeCalls 5 (trace (stateOf out)) = 0%nat.
Proof. by vm_compute. Qed.

Lemma deleteConfig_of_configured_store_blocks_witness :
  let w := Sim.evicting5 Sim.healthy in
  let out := deleteConfig "5" w in
  mu w = Unlocked
  /\ strconv.ParseUint "5" = Ok 5
  /\ StoreIDWitRanges w !! 5 = Some Sim.am
  /\ returns out = false
  /\ mu (stateOf out) = WLocked
  /\ StoreIDWitRanges (stateOf out) = delete 5 (StoreIDWitRanges w)
  /\ trace (stateOf out) = trace w ++ [EvResume 5 constant.In].
Proof.
  split_and!; [reflexivity | reflexivity | reflexivity | ..];
    apply (deleteConfig_of_configured_store_blocks "5" 5 Sim.am
             (Sim.evicting5 Sim.healthy)); reflexivity.
Defined.

Example delete_of_configured_store_does_not_return :
  deleteConfig "5" (Sim.evicting5 Sim.healthy)
  = NoReturn (mkWorld ∅ WLocked Sim.healthy [EvResume 5 constant.In] ∅).
Proof. by vm_compute. Qed.

(** A scheduler created with a start key that is itself an escape, such as
    ["%25zz"], stores the key ["%zz"]; an update of that store reads the
    stored keys back as arguments, [BuildWithArgs] rejects them, and the
    handler resumes the store and keeps its entry. *)
Example rejected_update_of_configured_store :
  let w : World Sim.State :=
    mkWorld {[ 5 := [NewKeyRange "%zz" "m"] ]} Unlocked Sim.healthy [] ∅ in
  let out := serve (Sim.update 5) w in
  createScheduler (sliceDecoder ["5"; "%25zz"; "m"]) Sim.healthy = Ok w
  /\ out = Returns (JSON http.StatusBadRequest (BodyErrorText (ErrEscape "%zz")))
             (stateOf out)
  /\ StoreIDWitRanges (stateOf out) !! 5 = Some [NewKeyRange "%zz" "m"]
  /\ pauseCalls 5 (trace (stateOf out)) = 0%nat
  /\ resumeCalls 5 (trace (stateOf out)) = 1%nat.
Proof. by vm_compute. Qed.

(** ** More on the range arguments *)

Lemma getKeyRanges_loop_length (args : list string) (acc rs : list KeyRange) :
  getKeyRanges_loop args acc = Ok rs ->
  length rs = (length acc + Nat.div2 (length args))%nat.
Proof.
  revert acc. induction args as [|a|a0 a1 rest IH] using pairs_ind;
    intros acc; simpl.
  - intros [= <-]. lia.
  - intros [= <-]. lia.
  - destruct (url.QueryUnescape a0); [|discriminate].
    destruct (url.QueryUnescape a1); [|discriminate].
    intros Hloop. apply IH in Hloop. rewrite Hloop, length_app. simpl. lia.
Qed.

(** X2: when getKeyRanges succeeds on [n] arguments it returns [n / 2]
    ranges, and one range (the whole keyspace) when [n < 2]: the result is
    never empty. *)
Theorem getKeyRanges_count (args : list string) (rs : list KeyRange) :
  getKeyRanges args = Ok rs ->
  length rs = Nat.max 1 (length args / 2) /\ rs <> [].
Proof.
  unfold getKeyRanges.
  destruct (getKeyRanges_loop args []) as [rs0|e] eqn:Hloop; [|discriminate].
  apply getKeyRanges_loop_length in Hloop. simpl in Hloop.
  rewrite Nat.div2_div in Hloop.
  destruct (Nat.eqb_spec (length rs0) 0) as [H0|H0]; intros [= <-].
  - split; [|done]. by rewrite <- Hloop, H0.
  - split; [|by destruct rs0]. rewrite <- Hloop. lia.
Qed.

Lemma getKeyRanges_count_witness :
  getKeyRanges ["a"; "m"; "n%20"; "z"; "tail"]
  = Ok [NewKeyRange "a" "m"; NewKeyRange "n " "z"]
  /\ length [NewKeyRange "a" "m"; NewKeyRange "n " "z"]
     = Nat.max 1 (length ["a"; "m"; "n%20"; "z"; "tail"] / 2)
  /\ [NewKeyRange "a" "m"; NewKeyRange "n " "z"] <> [].
Proof.
  exact (conj eq_refl
           (getKeyRanges_count ["a"; "m"; "n%20"; "z"; "tail"]
              [NewKeyRange "a" "m"; NewKeyRange "n " "z"] eq_refl)).
Defined.

Lemma getKeyRanges_loop_tail (args : list string) (a : string)
    (acc : list KeyRange) :
  Nat.Even (length args) ->
  getKeyRanges_loop (args ++ [a]) acc = getKeyRanges_loop args acc.
Proof.
  revert acc. induction args as [|a'|a0 a1 rest IH] using pairs_ind;
    intros acc Heven; simpl.
  - done.
  - destruct Heven as [k Hk]. simpl in Hk. lia.
  - destruct (url.QueryUnescape a0); [|done].
    destruct (url.QueryUnescape a1); [|done].
    apply IH. destruct Heven as [k Hk]. simpl in Hk. exists (k - 1)%nat. lia.
Qed.

(** X3: an argument left over after the last complete start/end pair has no
    influence on getKeyRanges: it is not decoded, so it can neither add a
    range nor make the call fail. *)
Theorem getKeyRanges_ignores_odd_tail (args : list string) (a : string) :
  Nat.Even (length args) ->
  getKeyRanges (args ++ [a]) = getKeyRanges args.
Proof.
  intros Heven. unfold getKeyRanges. by rewrite getKeyRanges_loop_tail.
Qed.

Lemma getKeyRanges_ignores_odd_tail_witness :
  Nat.Even (length ["a"; "m"])
  /\ getKeyRanges (["a"; "m"] ++ ["%zz"]) = getKeyRanges ["a"; "m"].
Proof.
  split; [by exists 1%nat|].
  apply (getKeyRanges_ignores_odd_tail ["a"; "m"] "%zz"). by exists 1%nat.
Defined.

Lemma QueryUnescape_plain (s : string) :
  plainKey s = true -> url.QueryUnescape s = Ok s.
Proof.
  induction s as [|c s IH]; simpl; [done|].
  intros H. apply andb_true_iff in H as [H Hs].
  apply andb_true_iff in H as [Hp Hplus].
  apply negb_true_iff in Hp, Hplus. rewrite Hp, Hplus.
  by rewrite (IH Hs).
Qed.

Lemma flattenRanges_from (acc : list string) (rs : list KeyRange) :
  foldl (fun res kr => res ++ [StartKey kr; EndKey kr]) acc rs
  = acc ++ flat_map (fun kr => [StartKey kr; EndKey kr]) rs.
Proof.
  revert acc. induction rs as [|kr rs IH]; intros acc; simpl.
  - by rewrite app_nil_r.
  - rewrite IH. by rewrite <- app_assoc.
Qed.

Lemma flattenRanges_cons (kr : KeyRange) (rs : list KeyRange) :
  flattenRanges (kr :: rs) = StartKey kr :: EndKey kr :: flattenRanges rs.
Proof. unfold flattenRanges. simpl. by rewrite !flattenRanges_from. Qed.

Lemma getKeyRanges_loop_flatten (rs acc : list KeyRange) :
  forallb plainRange rs = true ->
  getKeyRanges_loop (flattenRanges rs) acc = Ok (acc ++ rs).
Proof.
  revert acc. induction rs as [|[k1 k2] rs IH]; intros acc Hplain.
  - simpl. by rewrite app_nil_r.
  - simpl in Hplain. apply andb_true_iff in Hplain as [Hkr Hrs].
    apply andb_true_iff in Hkr as [H1 H2]. simpl in H1, H2.
    rewrite flattenRanges_cons. simpl.
    rewrite (QueryUnescape_plain _ H1), (QueryUnescape_plain _ H2).
    rewrite IH by done. by rewrite <- app_assoc.
Qed.

Lemma getKeyRanges_flattenRanges_plain (rs : list KeyRange) :
  rs <> [] ->
  forallb plainRange rs = true ->
  getKeyRanges (flattenRanges rs) = Ok rs.
Proof.
  intros Hne Hplain. unfold getKeyRanges.
  rewrite getKeyRanges_loop_flatten by done. simpl.
  by destruct rs.
Qed.

(** X4: flattening a non-empty list of ranges whose keys contain neither
    ["%"] nor ["+"] (what getRanges returns) and decoding the result with
    getKeyRanges gives the ranges back. *)
Theorem getKeyRanges_flattenRanges (rs : list KeyRange) :
  rs <> [] ->
  forallb plainRange rs = true ->
  getKeyRanges (flattenRanges rs) = Ok rs.
Proof. apply getKeyRanges_flattenRanges_plain. Qed.

Lemma getKeyRanges_flattenRanges_witness :
  [NewKeyRange "a" "m"; NewKeyRange "" "z"] <> []
  /\ forallb plainRange [NewKeyRange "a" "m"; NewKeyRange "" "z"] = true
  /\ getKeyRanges (flattenRanges [NewKeyRange "a" "m"; NewKeyRange "" "z"])
     = Ok [NewKeyRange "a" "m"; NewKeyRange "" "z"].
Proof.
  split_and!; [done | reflexivity |].
  apply (getKeyRanges_flattenRanges [NewKeyRange "a" "m"; NewKeyRange "" "z"]);
    [done | reflexivity].
Defined.

(** ** The update handler, path by path *)

Lemma getKeyRanges_nonempty (args : list string) (rs : list KeyRange) :
  getKeyRanges args = Ok rs -> rs <> [].
Proof.
  unfold getKeyRanges.
  destruct (getKeyRanges_loop args []) as [rs0|e]; [|discriminate].
  destruct rs0; simpl; by intros [= <-].
Qed.

Lemma decodeArgs_nonempty (args : list string) (id : N) (rs : list KeyRange) :
  decodeArgs args = Ok (id, rs) -> rs <> [].
Proof.
  unfold decodeArgs. destruct args as [|a0 rest]; [discriminate|].
  destruct (strconv.ParseUint a0); [|discriminate].
  destruct (getKeyRanges rest) as [rs'|] eqn:Hr; [|discriminate].
  intros [= <- <-]. by eapply getKeyRanges_nonempty.
Qed.

Section UpdatePaths.

Context {Σ : Type}.
Context `{!SchedulerCluster Σ, !Filters Σ, !OperatorController Σ, !ConfigStorage Σ}.

(** With the lock free, [updateConfig] from the resolution of the arguments
    on is this function of the state. *)
Lemma updateConfig_apply_spec (input : UpdateInput) (exists_ : bool) (id : N)
    (args : list string) (w : World Σ) :
  mu w = Unlocked ->
  updateConfig_apply input exists_ id args w
  = match decodeArgs (resolveArgs input exists_ id args (StoreIDWitRanges w)) with
    | Err e =>
        Returns (JSON http.StatusBadRequest (BodyErrorText e)) (callResume id w)
    | Ok (id', rs) =>
        match saveConfig (setConf (<[id' := rs]> (StoreIDWitRanges w)) w) with
        | (Some e, w2) =>
            Returns (JSON http.StatusInternalServerError (BodyErrorText e))
              (callResume id (setConf (delete id (StoreIDWitRanges w2)) w2))
        | (None, w2) => Returns (JSON http.StatusOK BodyNil) w2
        end
    end.
Proof.
  intros Hmu. unfold updateConfig_apply. rewrite bind_run.
  assert (Hargs :
            match ranges input with
            | Some rs => mret (args ++ rs)
            | None =>
                if exists_
                then current ← getRanges id; mret (args ++ current)
                else mret args
            end w
            = Returns (resolveArgs input exists_ id args (StoreIDWitRanges w)) w).
  { unfold resolveArgs. destruct (ranges input); [done|].
    destruct exists_; [|done].
    by rewrite bind_run, getRanges_unlocked. }
  rewrite Hargs, bind_run, BuildWithArgs_unlocked by done.
  destruct (decodeArgs _) as [[id' rs]|e].
  - set (w1 := setConf (<[id' := rs]> (StoreIDWitRanges w)) w).
    rewrite bind_run, (Persist_unlocked w1) by done.
    destruct (saveConfig_spec w1) as (_ & Hpm & _).
    destruct (saveConfig w1) as [[e|] w2]; simpl in *; [|done].
    by rewrite delete_resume_locked by (by rewrite Hpm).
  - by rewrite resume_locked.
Qed.

(** The state in which [updateConfig] resolves its arguments, and the
    arguments it starts from: after the pause call for a new store, or at
    once. *)
Lemma updateConfig_cases (input : UpdateInput) (w : World Σ) :
  (exists S e σ,
      store_id input = Some S /\ configured S w = false
      /\ PauseLeaderTransfer S constant.In (env w) = (Some e, σ)
      /\ updateConfig input w
         = Returns (JSON http.StatusInternalServerError (BodyErrorText e))
             (mkWorld (StoreIDWitRanges w) (mu w) σ
                      (trace w ++ [EvPause S constant.In (Some e)])
                      (limitCounter w)))
  \/ (exists exists_ id args w0,
      updateConfig input w = updateConfig_apply input exists_ id args w0
      /\ mu w0 = mu w /\ StoreIDWitRanges w0 = StoreIDWitRanges w
      /\ limitCounter w0 = limitCounter w
      /\ ((store_id input = Some id /\ exists_ = configured id w
           /\ args = [strconv.FormatUint id]
           /\ trace w0 = trace w ++ pausePart id w)
          \/ (store_id input = None /\ exists_ = false /\ id = 0 /\ args = []
              /\ w0 = w))).
Proof.
  unfold updateConfig. destruct (store_id input) as [S|] eqn:Hid.
  - rewrite bind_run. unfold lift. fold (configured S w).
    destruct (configured S w) eqn:Hc.
    + right. exists true, S, [strconv.FormatUint S], w.
      split; [done|]. split_and!; [done..|]. left. split_and!; try done.
      unfold pausePart. by rewrite Hc, app_nil_r.
    + rewrite bind_run. unfold callPause.
      destruct (PauseLeaderTransfer S constant.In (env w)) as [[e|] σ] eqn:Hp.
      * left. by exists S, e, σ.
      * right. eexists false, S, [strconv.FormatUint S], _.
        split; [done|]. split_and!; [done..|]. left. split_and!; try done.
        unfold pausePart. by rewrite Hc.
  - right. exists false, 0, [], w. split; [done|]. split_and!; [done..|].
    by right.
Qed.

Lemma updateConfig_apply_returns (input : UpdateInput) (exists_ : bool)
    (id : N) (args : list string) (w : World Σ) :
  mu w = Unlocked ->
  exists resp w',
    updateConfig_apply input exists_ id args w = Returns resp w'
    /\ mu w' = Unlocked /\ limitCounter w' = limitCounter w.
Proof.
  intros Hmu. rewrite updateConfig_apply_spec by done.
  destruct (decodeArgs _) as [[id' rs]|e].
  - set (w1 := setConf (<[id' := rs]> (StoreIDWitRanges w)) w).
    destruct (saveConfig_spec w1) as (_ & Hpm & _ & Hlc).
    destruct (saveConfig w1) as [[e|] w2]; simpl in *;
      eexists _, _; (split; [reflexivity|]); simpl; by rewrite Hpm, Hlc.
  - eexists _, _. split; [reflexivity|]. done.
Qed.

Lemma updateConfig_returns_unlocked (input : UpdateInput) (w : World Σ) :
  mu w = Unlocked ->
  returns (updateConfig input w) = true
  /\ mu (stateOf (updateConfig input w)) = Unlocked
  /\ limitCounter (stateOf (updateConfig input w)) = limitCounter w.
Proof.
  intros Hmu.
  destruct (updateConfig_cases input w)
    as [(S & e & σ & _ & _ & _ & ->)
       |(ex & id & args & w0 & -> & Hmu0 & _ & Hlc0 & _)]; [done|].
  destruct (updateConfig_apply_returns input ex id args w0)
    as (resp & w' & -> & Hmu' & Hlc'); [by rewrite Hmu0|].
  simpl. by rewrite Hlc', Hlc0.
Qed.

(** X5: with the lock free, every update request returns, whatever its body
    and whatever the cluster and the storage answer, and the lock is free
    again afterwards; the rejection counters are untouched. *)
Theorem updateConfig_returns_lock_free (input : UpdateInput) (w : World Σ) :
  mu w = Unlocked ->
  returns (updateConfig input w) = true
  /\ mu (stateOf (updateConfig input w)) = Unlocked
  /\ limitCounter (stateOf (updateConfig input w)) = limitCounter w.
Proof. apply updateConfig_returns_unlocked. Qed.

(** X6: with the lock free, an update request whose body has neither a
    numeric [store_id] nor [ranges] is answered 400 "should specify the
    store-id"; the mapping is unchanged and nothing is saved, but one
    ResumeLeaderTransfer call for store 0 is issued. *)
Theorem updateConfig_without_store_id (w : World Σ) :
  mu w = Unlocked ->
  updateConfig {| store_id := None; ranges := None |} w
  = Returns (JSON http.StatusBadRequest
                  (BodyErrorText (ErrNew "should specify the store-id")))
      (mkWorld (StoreIDWitRanges w) Unlocked
               (ResumeLeaderTransfer 0 constant.In (env w))
               (trace w ++ [EvResume 0 constant.In]) (limitCounter w)).
Proof.
  intros Hmu. unfold updateConfig. simpl.
  rewrite updateConfig_apply_spec by done. simpl.
  unfold callResume. by rewrite Hmu.
Qed.

(** X7: when the store of an update request is not configured and the
    cluster refuses to pause it, the handler answers 500 with the cluster's
    error and stops: the mapping is unchanged, the lock is not touched, and
    the failed pause is the only call issued (no resume, no save). *)
Theorem updateConfig_pause_failure_aborts (input : UpdateInput) (S : N)
    (e : error) (σ : Σ) (w : World Σ) :
  store_id input = Some S ->
  StoreIDWitRanges w !! S = None ->
  PauseLeaderTransfer S constant.In (env w) = (Some e, σ) ->
  updateConfig input w
  = Returns (JSON http.StatusInternalServerError (BodyErrorText e))
      (mkWorld (StoreIDWitRanges w) (mu w) σ
               (trace w ++ [EvPause S constant.In (Some e)]) (limitCounter w)).
Proof.
  intros Hid Hnone Hp. unfold updateConfig. rewrite Hid.
  rewrite bind_run. unfold lift. rewrite Hnone.
  rewrite bool_decide_eq_false_2 by (by intros [? ?]).
  rewrite bind_run. unfold callPause. by rewrite Hp.
Qed.

(** X8: with the lock free, an update request that names a 64-bit store
    which is not configured and gives no ranges, when the cluster pauses the
    store and the storage accepts the write, is answered 200; the store is
    configured with the single whole-keyspace range, every other entry is
    kept, and the calls issued are the pause followed by the save of the
    encoding of the new mapping. *)
Theorem updateConfig_new_store_commits (S : N) (data : string) (σ1 σ2 : Σ)
    (w : World Σ) :
  mu w = Unlocked ->
  S < strconv.maxUint64 ->
  StoreIDWitRanges w !! S = None ->
  PauseLeaderTransfer S constant.In (env w) = (None, σ1) ->
  EncodeConfig (<[S := [NewKeyRange "" ""]]> (StoreIDWitRanges w)) = Ok data ->
  SaveSchedulerConfig EvictLeaderName data σ1 = (None, σ2) ->
  updateConfig {| store_id := Some S; ranges := None |} w
  = Returns (JSON http.StatusOK BodyNil)
      (mkWorld (<[S := [NewKeyRange "" ""]]> (StoreIDWitRanges w)) Unlocked σ2
               (trace w ++ [EvPause S constant.In None;
                            EvSave EvictLeaderName data None])
               (limitCounter w)).
Proof.
  intros Hmu HS Hnone Hp Henc Hsave. unfold updateConfig. simpl.
  rewrite bind_run. unfold lift. rewrite Hnone.
  rewrite bool_decide_eq_false_2 by (by intros [? ?]).
  rewrite bind_run. unfold callPause. rewrite Hp.
  rewrite updateConfig_apply_spec by done.
  unfold resolveArgs. simpl ranges. cbv iota.
  rewrite decodeArgs_formatted by done. simpl getKeyRanges. cbv iota.
  unfold saveConfig, callSave. simpl. rewrite Henc. simpl. rewrite Hsave. simpl.
  by rewrite Hmu, <- app_assoc.
Qed.

(** X9: with the lock free, an update request is answered 200 only after a
    successful save of the encoding of the mapping the handler leaves in
    memory: that save is the last call issued. *)
Theorem updateConfig_ok_means_saved (input : UpdateInput) (w w' : World Σ)
    (resp : Response) :
  mu w = Unlocked ->
  updateConfig input w = Returns resp w' ->
  status resp = http.StatusOK ->
  exists data,
    EncodeConfig (StoreIDWitRanges w') = Ok data
    /\ last (trace w') = Some (EvSave EvictLeaderName data None).
Proof.
  intros Hmu Hrun Hok.
  destruct (updateConfig_cases input w)
    as [(S & e & σ & _ & _ & _ & Heq)
       |(ex & id & args & w0 & Heq & Hmu0 & _)];
    rewrite Heq in Hrun.
  { injection Hrun as <- <-. discriminate. }
  rewrite updateConfig_apply_spec in Hrun by (by rewrite Hmu0).
  destruct (decodeArgs _) as [[id' rs]|e].
  - set (w1 := setConf (<[id' := rs]> (StoreIDWitRanges w0)) w0) in *.
    unfold saveConfig, callSave in Hrun.
    destruct (EncodeConfig (StoreIDWitRanges w1)) as [data|e] eqn:Henc.
    + destruct (SaveSchedulerConfig EvictLeaderName data (env w1))
        as [[e|] σ'] eqn:Hsave; simpl in Hrun; injection Hrun as <- <-;
        [discriminate|].
      exists data. simpl. split; [done|]. by rewrite last_snoc.
    + simpl in Hrun. injection Hrun as <- <-. discriminate.
  - injection Hrun as <- <-. discriminate.
Qed.

End UpdatePaths.

(** ** Pause and resume calls along a run of requests on one store *)

Section Symmetry.

Context {Σ : Type}.
Context `{!SchedulerCluster Σ, !Filters Σ, !OperatorController Σ, !ConfigStorage Σ}.






End Symmetry.


(** The same on a healthy cluster: the first update configures store 5, the
    second finds it configured and pauses nothing; one pause, no resume. *)
Example pause_resume_symmetry_configured :
  let rs := [ReqDelete "5"; Sim.update 5; Sim.update 5] in
  let out := serveAll rs (initWorld Sim.healthy) in
  returns out = true
  /\ forallb pauseOk (trace (stateOf out)) = true
  /\ configured 5 (stateOf out) = true
  /\ pauseCalls 5 (trace (stateOf out)) = 1%nat
  /\ resumeCalls 5 (trace (stateOf out)) = 0%nat.
Proof. by vm_compute. Qed.

(** ** What the handlers keep *)

Lemma pauseCalls_other (S S' : N) (d : constant.Direction) (r : option error) :
  S' <> S -> pauseCalls S' [EvPause S d r] = 0%nat.
Proof.
  intros Hne. unfold pauseCalls. simpl.
  by rewrite (proj2 (N.eqb_neq S S')).
Qed.

Lemma resumeCalls_other (S S' : N) (d : constant.Direction) :
  S' <> S -> resumeCalls S' [EvResume S d] = 0%nat.
Proof.
  intros Hne. unfold resumeCalls. simpl.
  by rewrite (proj2 (N.eqb_neq S S')).
Qed.

Lemma pausePart_other {Σ} (S S' : N) (w : World Σ) :
  S' <> S ->
  pauseCalls S' (pausePart S w) = 0%nat /\ resumeCalls S' (pausePart S w) = 0%nat.
Proof.
  intros Hne. unfold pausePart. destruct (configured S w); [done|].
  by rewrite pauseCalls_other.
Qed.

Section HandlerInvariants.

Context {Σ : Type}.
Context `{!SchedulerCluster Σ, !Filters Σ, !OperatorController Σ, !ConfigStorage Σ}.

(** X10: with the lock free, an update request for a configured 64-bit
    store that gives no ranges issues no pause call and, when it is answered
    200, leaves the store with the percent-decoding of its current keys (the
    keys that getRanges returned, decoded once more by getKeyRanges) and
    every other entry as it was; the ranges are the same as before when no
    key contains ["%"] or ["+"]. *)
Theorem updateConfig_without_ranges_redecodes (S : N) (rs : list KeyRange)
    (w w' : World Σ) (resp : Response) :
  mu w = Unlocked ->
  S < strconv.maxUint64 ->
  StoreIDWitRanges w !! S = Some rs ->
  updateConfig {| store_id := Some S; ranges := None |} w = Returns resp w' ->
  status resp = http.StatusOK ->
  exists rs',
    getKeyRanges (flattenRanges rs) = Ok rs'
    /\ StoreIDWitRanges w' = <[S := rs']> (StoreIDWitRanges w)
    /\ pauseCalls S (trace w') = pauseCalls S (trace w)
    /\ (rs <> [] -> forallb plainRange rs = true ->
        StoreIDWitRanges w' = StoreIDWitRanges w).
Proof.
  intros Hmu HS Hlk Hrun Hok. unfold updateConfig in Hrun. simpl in Hrun.
  rewrite bind_run in Hrun. unfold lift in Hrun. rewrite Hlk in Hrun.
  rewrite bool_decide_eq_true_2 in Hrun by (by eexists).
  rewrite updateConfig_apply_spec in Hrun by done.
  unfold resolveArgs in Hrun. simpl ranges in Hrun. cbv iota in Hrun.
  rewrite Hlk in Hrun. simpl default in Hrun.
  change ([strconv.FormatUint S] ++ flattenRanges rs)
    with (strconv.FormatUint S :: flattenRanges rs) in Hrun.
  rewrite decodeArgs_formatted in Hrun by done.
  destruct (getKeyRanges (flattenRanges rs)) as [rs'|e] eqn:Hdec.
  - set (w1 := setConf (<[S := rs']> (StoreIDWitRanges w)) w) in *.
    destruct (saveConfig_spec w1) as (Hc & _ & Ht & _).
    destruct (persistEvents_counts S w1) as (Hp0 & _).
    destruct (saveConfig w1) as [[e|] w2]; simpl in *;
      injection Hrun as <- <-; [discriminate|].
    exists rs'. split_and!; try done.
    + rewrite Ht. by rewrite pauseCalls_app, Hp0, Nat.add_0_r.
    + intros Hne Hplain. rewrite Hc.
      rewrite (getKeyRanges_flattenRanges_plain rs Hne Hplain) in Hdec.
      injection Hdec as <-. by apply insert_id.
  - injection Hrun as <- <-. discriminate.
Qed.

(** X11: with the lock free, a delete request that returns has changed
    nothing and is an error answer (400 for an ID that does not parse, 500
    for a store that is not configured): no delete request is ever answered
    200, since the handler does not return when the store is configured. *)
Theorem deleteConfig_never_succeeds (idStr : string) (w : World Σ) :
  mu w = Unlocked ->
  match deleteConfig idStr w with
  | Returns resp w' =>
      w' = w
      /\ (status resp = http.StatusBadRequest
          \/ status resp = http.StatusInternalServerError)
  | NoReturn w' =>
      exists S rs,
        strconv.ParseUint idStr = Ok S /\ StoreIDWitRanges w !! S = Some rs
  end.
Proof.
  intros Hmu.
  destruct (strconv.ParseUint idStr) as [S|e] eqn:Hp.
  - destruct (StoreIDWitRanges w !! S) as [rs|] eqn:Hlk.
    + rewrite (deleteConfig_configured idStr S rs w) by done. by exists S, rs.
    + rewrite (deleteConfig_not_found idStr S w) by done. split; [done|]. by right.
  - unfold deleteConfig. rewrite Hp. split; [done|]. by left.
Qed.

Lemma serve_other_store (S S' : N) (r : Request) (w : World Σ) :
  mu w = Unlocked ->
  S < strconv.maxUint64 ->
  onStore S r = true ->
  S' <> S ->
  StoreIDWitRanges (stateOf (serve r w)) !! S' = StoreIDWitRanges w !! S'
  /\ pauseCalls S' (trace (stateOf (serve r w))) = pauseCalls S' (trace w)
  /\ resumeCalls S' (trace (stateOf (serve r w))) = resumeCalls S' (trace w).
Proof.
  intros Hmu HS Hon Hne. destruct r as [input|idStr]; simpl in *.
  - destruct (store_id input) as [id|] eqn:Hid; [|discriminate].
    apply N.eqb_eq in Hon as ->.
    destruct (pausePart_other S S' w Hne) as [Hpp Hpr].
    destruct (updateConfig_cases input w)
      as [(S0 & e & σ & Hid0 & _ & _ & ->)
         |(ex & id & args & w0 & -> & Hmu0 & Hc0 & _
           & [(Hid0 & -> & -> & Ht0)|(Hid0 & _)])];
      rewrite Hid in Hid0; try discriminate; injection Hid0 as <-.
    + simpl. split; [done|].
      by rewrite pauseCalls_app, resumeCalls_app, pauseCalls_other,
        resumeCalls_pause, !Nat.add_0_r.
    + rewrite updateConfig_apply_spec by (by rewrite Hmu0).
      unfold resolveArgs.
      assert (Hargs : exists extra,
                match ranges input with
                | Some rs => [strconv.FormatUint S] ++ rs
                | None =>
                    if configured S w
                    then [strconv.FormatUint S]
                         ++ flattenRanges (default [] (StoreIDWitRanges w0 !! S))
                    else [strconv.FormatUint S]
                end = strconv.FormatUint S :: extra).
      { destruct (ranges input); [by eexists|].
        destruct (configured S w); by eexists. }
      destruct Hargs as [extra ->]. rewrite decodeArgs_formatted by done.
      destruct (getKeyRanges extra) as [rs|e].
      * set (w1 := setConf (<[S := rs]> (StoreIDWitRanges w0)) w0).
        destruct (saveConfig_spec w1) as (Hc & _ & Ht & _).
        destruct (persistEvents_counts S' w1) as (Hsp & Hsr & _).
        destruct (saveConfig w1) as [[e|] w2]; simpl in *.
        -- rewrite Hc, Ht, Ht0.
           rewrite lookup_delete_ne, lookup_insert_ne, Hc0 by done.
           split; [done|].
           rewrite !pauseCalls_app, !resumeCalls_app, Hpp, Hpr, Hsp, Hsr.
           rewrite pauseCalls_resume, resumeCalls_other by done. lia.
        -- rewrite Hc, Ht, Ht0. rewrite lookup_insert_ne, Hc0 by done.
           split; [done|].
           rewrite !pauseCalls_app, !resumeCalls_app, Hpp, Hpr, Hsp, Hsr. lia.
      * simpl. rewrite Hc0, Ht0. split; [done|].
        rewrite !pauseCalls_app, !resumeCalls_app, Hpp, Hpr.
        rewrite pauseCalls_resume, resumeCalls_other by done. lia.
  - destruct (strconv.ParseUint idStr) as [id|] eqn:Hp; [|discriminate].
    apply N.eqb_eq in Hon as ->.
    destruct (StoreIDWitRanges w !! S) as [rs|] eqn:Hlk.
    + rewrite (deleteConfig_configured idStr S rs w) by done. simpl.
      rewrite lookup_delete_ne by done. split; [done|].
      rewrite pauseCalls_app, resumeCalls_app.
      rewrite pauseCalls_resume, resumeCalls_other by done. lia.
    + by rewrite (deleteConfig_not_found idStr S w).
Qed.

(** X12: with the lock free, an update or delete request on a 64-bit store
    ID [S] leaves the entry of every other store as it was and issues no
    pause and no resume call for any other store, whatever path it takes
    (also when it is rejected, rolled back, or does not return). *)
Theorem serve_frames_other_stores (S S' : N) (r : Request) (w : World Σ) :
  mu w = Unlocked ->
  S < strconv.maxUint64 ->
  onStore S r = true ->
  S' <> S ->
  let w' := stateOf (serve r w) in
  StoreIDWitRanges w' !! S' = StoreIDWitRanges w !! S'
  /\ pauseCalls S' (trace w') = pauseCalls S' (trace w)
  /\ resumeCalls S' (trace w') = resumeCalls S' (trace w).
Proof. intros Hmu HS Hon Hne. by apply (serve_other_store S S' r w). Qed.

Lemma rangesNonEmpty_insert (id : N) (rs : list KeyRange) (w w' : World Σ) :
  rangesNonEmpty w -> rs <> [] ->
  StoreIDWitRanges w' = <[id := rs]> (StoreIDWitRanges w) ->
  rangesNonEmpty w'.
Proof.
  intros HI Hne Hc id' rs'. rewrite Hc.
  destruct (decide (id = id')) as [->|Hd].
  - rewrite lookup_insert_eq. by intros [= <-].
  - rewrite lookup_insert_ne by done. apply HI.
Qed.

Lemma rangesNonEmpty_delete (id : N) (m : targets_map) (w' : World Σ) :
  (forall id rs, m !! id = Some rs -> rs <> []) ->
  StoreIDWitRanges w' = delete id m ->
  rangesNonEmpty w'.
Proof.
  intros HI Hc id' rs'. rewrite Hc.
  destruct (decide (id = id')) as [->|Hd].
  - by rewrite lookup_delete_eq.
  - rewrite lookup_delete_ne by done. apply HI.
Qed.

Lemma rangesNonEmpty_same (w w' : World Σ) :
  rangesNonEmpty w -> StoreIDWitRanges w' = StoreIDWitRanges w ->
  rangesNonEmpty w'.
Proof. intros HI Hc id rs. rewrite Hc. apply HI. Qed.

Lemma serve_keeps_rangesNonEmpty (r : Request) (w : World Σ) :
  mu w = Unlocked -> rangesNonEmpty w ->
  rangesNonEmpty (stateOf (serve r w))
  /\ (returns (serve r w) = true -> mu (stateOf (serve r w)) = Unlocked).
Proof.
  intros Hmu HI. destruct r as [input|idStr]; simpl.
  - split; [|intros _; by apply (updateConfig_returns_unlocked input w)].
    destruct (updateConfig_cases input w)
      as [(S0 & e & σ & _ & _ & _ & ->)
         |(ex & id & args & w0 & -> & Hmu0 & Hc0 & _)].
    { by apply (rangesNonEmpty_same w). }
    rewrite updateConfig_apply_spec by (by rewrite Hmu0).
    pose proof (rangesNonEmpty_same w w0 HI Hc0) as HI0.
    destruct (decodeArgs _) as [[id' rs]|e] eqn:Hdec.
    + apply decodeArgs_nonempty in Hdec.
      set (w1 := setConf (<[id' := rs]> (StoreIDWitRanges w0)) w0).
      assert (HI1 : rangesNonEmpty w1) by by eapply rangesNonEmpty_insert.
      destruct (saveConfig_spec w1) as (Hc & _).
      destruct (saveConfig w1) as [[e|] w2]; simpl in *.
      * eapply rangesNonEmpty_delete; [|done]. intros i r. rewrite Hc. apply HI1.
      * by apply (rangesNonEmpty_same w1).
    + by apply (rangesNonEmpty_same w0).
  - destruct (strconv.ParseUint idStr) as [S|e] eqn:Hp.
    + destruct (StoreIDWitRanges w !! S) as [rs|] eqn:Hlk.
      * rewrite (deleteConfig_configured idStr S rs w) by done. simpl.
        split; [|discriminate].
        by apply (rangesNonEmpty_delete S (StoreIDWitRanges w)).
      * by rewrite (deleteConfig_not_found idStr S w).
    + unfold deleteConfig. by rewrite Hp.
Qed.

(** X13: starting with the lock free from a mapping in which every
    configured store has at least one range, any sequence of update and
    delete requests, served one after the other, ends in a mapping in which
    every configured store has at least one range, whatever the requests
    carry and whatever the cluster and the storage answer. *)
Theorem serveAll_keeps_ranges_nonempty (rs : list Request) (w : World Σ) :
  mu w = Unlocked ->
  rangesNonEmpty w ->
  rangesNonEmpty (stateOf (serveAll rs w)).
Proof.
  revert w. induction rs as [|r rs IH]; intros w Hmu HI; simpl; [done|].
  destruct (serve_keeps_rangesNonEmpty r w Hmu HI) as [HI' Hmu'].
  rewrite bind_run.
  destruct (serve r w) as [resp w'|w']; simpl in *; [|done].
  rewrite bind_run. specialize (IH w' (Hmu' eq_refl) HI').
  by destruct (serveAll rs w').
Qed.

End HandlerInvariants.

(** ** The lifecycle hooks together, and the scheduling tick *)

Lemma count_in_NoDup (S : N) (order : list N) :
  NoDup order ->
  length (List.filter (fun id => N.eqb id S) order)
  = if bool_decide (S ∈ order) then 1%nat else 0%nat.
Proof.
  induction 1 as [|id order Hnotin Hnd IH]; simpl; [done|].
  destruct (N.eqb_spec id S) as [->|Hne]; simpl.
  - rewrite IH. rewrite (bool_decide_eq_false_2 (S ∈ order)) by done.
    rewrite bool_decide_eq_true_2; [done|]. apply list_elem_of_here.
  - rewrite IH.
    rewrite (bool_decide_ext (S ∈ id :: order) (S ∈ order)); [done|].
    rewrite elem_of_cons. split; [intros [Heq|Hin]; [by subst|done] | by right].
Qed.

Lemma pauseEvents_counts (S : N) (order : list N) (results : list (option error)) :
  length results = length order ->
  pauseCalls S (pauseEvents order results)
  = length (List.filter (fun id => N.eqb id S) order)
  /\ resumeCalls S (pauseEvents order results) = 0%nat.
Proof.
  revert results. induction order as [|id order IH]; intros [|r rs]; simpl;
    try done.
  intros [= Hlen]. destruct (IH rs Hlen) as [IHp IHr].
  unfold pauseCalls, resumeCalls in *. simpl.
  destruct (N.eqb id S); simpl; by rewrite IHp, ?IHr.
Qed.

Lemma resumeEvents_counts (S : N) (order : list N) :
  resumeCalls S (resumeEvents order)
  = length (List.filter (fun id => N.eqb id S) order)
  /\ pauseCalls S (resumeEvents order) = 0%nat.
Proof.
  induction order as [|id order [IHr IHp]]; simpl; [done|].
  unfold pauseCalls, resumeCalls in *. simpl.
  destruct (N.eqb id S); simpl; by rewrite IHr, ?IHp.
Qed.

Lemma keys_configured {Σ} (S : N) (order : list N) (w : World Σ) :
  order ≡ₚ (map_to_list (StoreIDWitRanges w)).*1 ->
  bool_decide (S ∈ order) = configured S w.
Proof.
  intros Hperm. unfold configured. apply bool_decide_ext.
  rewrite Hperm, list_elem_of_fmap. split.
  - intros ([k v] & -> & Hin). apply elem_of_map_to_list in Hin. by exists v.
  - intros [v Hv]. exists (S, v). split; [done|]. by apply elem_of_map_to_list.
Qed.

Lemma keys_NoDup {Σ} (order : list N) (w : World Σ) :
  order ≡ₚ (map_to_list (StoreIDWitRanges w)).*1 -> NoDup order.
Proof. intros ->. apply NoDup_fst_map_to_list. Qed.

Section Lifecycle.

Context {Σ : Type}.
Context `{!SchedulerCluster Σ, !Filters Σ, !OperatorController Σ, !ConfigStorage Σ}.

Lemma resumeLoop_spec (order : list N) (w : World Σ) :
  resumeLoop order w
  = (tt, mkWorld (StoreIDWitRanges w) (mu w) (resumeAll order (env w))
                 (trace w ++ resumeEvents order) (limitCounter w)).
Proof.
  unfold resumeLoop, resumeAll. f_equal. revert w.
  induction order as [|id order IH]; intros w; simpl.
  - rewrite app_nil_r. by destruct w.
  - rewrite IH. simpl. by rewrite <- app_assoc.
Qed.

Lemma keepsLock_resumeLoop (order : list N) : keepsLock (resumeLoop order).
Proof. intros w m. by rewrite !resumeLoop_spec. Qed.

Lemma CleanConfig_unlocked (order : list N) (w : World Σ) :
  mu w = Unlocked ->
  CleanConfig order w
  = Returns tt (mkWorld (StoreIDWitRanges w) Unlocked (resumeAll order (env w))
                        (trace w ++ resumeEvents order) (limitCounter w)).
Proof.
  intros Hmu. unfold CleanConfig.
  rewrite (readLocked_unlocked _ _ (keepsLock_resumeLoop order) Hmu).
  rewrite resumeLoop_spec. simpl. by rewrite Hmu.
Qed.

Lemma PrepareConfig_unlocked (order : list N) (w : World Σ) :
  mu w = Unlocked ->
  PrepareConfig order w
  = Returns (lastError (pauseAll order (env w)).1)
      (mkWorld (StoreIDWitRanges w) Unlocked (pauseAll order (env w)).2
               (trace w ++ pauseEvents order (pauseAll order (env w)).1)
               (limitCounter w)).
Proof.
  intros Hmu. unfold PrepareConfig.
  rewrite (readLocked_unlocked _ _ (keepsLock_pauseLoop order) Hmu).
  rewrite pauseLoop_spec. simpl. by rewrite Hmu.
Qed.

(** X14: with the lock free, CleanConfig, visiting the keys of the mapping
    in any order, returns after issuing exactly one resume call for every
    configured store, in the order of the visit, and no other call; the
    mapping, the lock and the counters are as before. *)
Theorem CleanConfig_resumes_every_store (order : list N) (w : World Σ) :
  mu w = Unlocked ->
  order ≡ₚ (map_to_list (StoreIDWitRanges w)).*1 ->
  CleanConfig order w
  = Returns tt (mkWorld (StoreIDWitRanges w) Unlocked (resumeAll order (env w))
                        (trace w ++ map (fun id => EvResume id constant.In) order)
                        (limitCounter w))
  /\ forall S,
       resumeCalls S (map (fun id => EvResume id constant.In) order)
       = if configured S w then 1%nat else 0%nat.
Proof.
  intros Hmu Hperm. split; [by apply CleanConfig_unlocked|].
  intros S. fold (resumeEvents order).
  destruct (resumeEvents_counts S order) as [-> _].
  rewrite count_in_NoDup by by eapply keys_NoDup.
  by rewrite (keys_configured S order w).
Qed.

(** X15: with the lock free, PrepareConfig followed by CleanConfig (each
    visiting the keys of the mapping in an order of its own) both return,
    and between them issue, for every store, as many pause calls as resume
    calls: one of each for a configured store, none for any other store;
    this holds whatever the pause calls answer. *)
Theorem PrepareConfig_then_CleanConfig_balanced (order1 order2 : list N)
    (w : World Σ) :
  mu w = Unlocked ->
  order1 ≡ₚ (map_to_list (StoreIDWitRanges w)).*1 ->
  order2 ≡ₚ (map_to_list (StoreIDWitRanges w)).*1 ->
  let prepared := PrepareConfig order1 w in
  let cleaned := CleanConfig order2 (stateOf prepared) in
  returns prepared = true /\ returns cleaned = true
  /\ StoreIDWitRanges (stateOf cleaned) = StoreIDWitRanges w
  /\ mu (stateOf cleaned) = Unlocked
  /\ forall S,
       pauseCalls S (callsSince w (stateOf cleaned))
       = (if configured S w then 1%nat else 0%nat)
       /\ resumeCalls S (callsSince w (stateOf cleaned))
          = (if configured S w then 1%nat else 0%nat).
Proof.
  intros Hmu Hp1 Hp2 prepared cleaned. subst prepared cleaned.
  rewrite PrepareConfig_unlocked by done. simpl.
  rewrite CleanConfig_unlocked by done. simpl.
  split_and!; try done.
  intros S. unfold callsSince. simpl.
  rewrite <- app_assoc, drop_app_length.
  pose proof (pauseAll_length order1 (env w)) as Hlen.
  destruct (pauseEvents_counts S order1 _ Hlen) as [Hpp Hpr].
  destruct (resumeEvents_counts S order2) as [Hrr Hrp].
  rewrite pauseCalls_app, resumeCalls_app, Hpp, Hpr, Hrr, Hrp.
  rewrite !count_in_NoDup by by eapply keys_NoDup.
  rewrite (keys_configured S order1 w), (keys_configured S order2 w) by done.
  split; lia.
Qed.

Lemma scheduleStore_priority (id : N) (rs : list KeyRange) (σ σ' : Σ)
    (op : operator.Operator) :
  scheduleStore id rs σ = (Some op, σ') ->
  operator.Priority op = constant.High.
Proof.
  unfold scheduleStore.
  destruct (RandLeaderRegions id rs σ) as [regions σ1].
  destruct (SelectOneRegion regions σ1) as [region|]; [|discriminate].
  destruct (RandomPick _ σ1) as [[target|] σ2]; [|discriminate].
  destruct (CreateTransferLeaderOperator _ _ _ _ _) as [op0|]; [|discriminate].
  by intros [= <- <-].
Qed.

Lemma scheduleOutcomes_priority (order : list (N * list KeyRange)) (σ : Σ) :
  Forall (fun op => operator.Priority op = constant.High)
         (omap id (scheduleOutcomes order σ)).
Proof.
  revert σ. induction order as [|[id rs] order IH]; intros σ; simpl.
  - constructor.
  - destruct (scheduleStore id rs σ) as [[op|] σ'] eqn:Hs; cbn.
    + constructor; [|apply IH]. by apply scheduleStore_priority in Hs.
    + apply IH.
Qed.

(** X16: with the lock free, Schedule returns, whatever entries it visits
    and whatever the cluster, the filters and the operator builder answer;
    every operator it returns has priority High; it issues no pause, resume
    or save call, and leaves the mapping, the lock and the rejection counters
    as they were. *)
Theorem Schedule_operators_high_priority (order : list (N * list KeyRange))
    (w : World Σ) :
  mu w = Unlocked ->
  exists ops w',
    Schedule order w = Returns (ops, []) w'
    /\ Forall (fun op => operator.Priority op = constant.High) ops
    /\ StoreIDWitRanges w' = StoreIDWitRanges w /\ mu w' = Unlocked
    /\ trace w' = trace w /\ limitCounter w' = limitCounter w.
Proof.
  intros Hmu. unfold Schedule. rewrite bind_run.
  rewrite (readLocked_unlocked _ _ (keepsLock_scheduleLoop order) Hmu).
  destruct (scheduleLoop_spec order w) as (Hops & σ & Hw & _).
  eexists _, _. split; [reflexivity|]. rewrite Hops, Hw. simpl.
  split_and!; try done. apply scheduleOutcomes_priority.
Qed.

(** X17: with the lock free, BuildWithArgs and the decoder that the plugin
    registers for command-line arguments agree: both return the same error
    or both store the same ranges for the same store in the mapping; handed
    a value that is not the plugin's config, the decoder returns an error
    and changes nothing. *)
Theorem sliceDecoder_agrees_with_BuildWithArgs (args : list string)
    (w : World Σ) :
  mu w = Unlocked ->
  (exists err conf',
      sliceDecoder args (AnyConfig (StoreIDWitRanges w)) = (err, AnyConfig conf')
      /\ BuildWithArgs args w = Returns err (setConf conf' w))
  /\ exists e, sliceDecoder args AnyOther = (Some e, AnyOther).
Proof.
  intros Hmu. rewrite BuildWithArgs_unlocked by done.
  unfold sliceDecoder, decodeArgs.
  destruct args as [|a0 rest].
  { split; [|by eexists]. eexists _, _. split; [done|]. by destruct w. }
  split; [|by eexists].
  destruct (strconv.ParseUint a0) as [id|e].
  - destruct (getKeyRanges rest) as [rs|e]; eexists _, _; (split; [done|]);
      [done|by destruct w].
  - eexists _, _. split; [done|]. by destruct w.
Qed.

End Lifecycle.

(** X18: the constructor registered for the scheduler, run with the
    registered decoder on a list of arguments, fails exactly when the
    arguments are invalid; when it succeeds the new scheduler has exactly one
    configured store, the one the first argument names, with at least one
    range, and its lock is free. *)
Theorem createScheduler_one_store {Σ} (args : list string) (σ : Σ) :
  match createScheduler (sliceDecoder args) σ with
  | Err e => decodeArgs args = Err e
  | Ok w =>
      exists id rs,
        decodeArgs args = Ok (id, rs)
        /\ StoreIDWitRanges w = {[ id := rs ]}
        /\ size (StoreIDWitRanges w) = 1%nat
        /\ rs <> [] /\ mu w = Unlocked /\ trace w = []
  end.
Proof.
  unfold createScheduler, sliceDecoder.
  destruct args as [|a0 rest]; [done|].
  destruct (decodeArgs (a0 :: rest)) as [[id rs]|e] eqn:Hdec;
    unfold decodeArgs in Hdec;
    destruct (strconv.ParseUint a0) as [id0|e0]; try discriminate;
    try (by injection Hdec as <-).
  - destruct (getKeyRanges rest) as [rs0|e0] eqn:Hr; [|discriminate].
    injection Hdec as <- <-. exists id0, rs0. simpl.
    split_and!; try done.
    + by rewrite insert_empty, map_size_singleton.
    + by eapply getKeyRanges_nonempty.
  - destruct (getKeyRanges rest) as [rs0|e0] eqn:Hr; [discriminate|].
    by injection Hdec as <-.
Qed.

Example createScheduler_default_args :
  createScheduler (sliceDecoder SchedulerArgs) Sim.healthy
  = Ok (mkWorld {[ 1 := [NewKeyRange "" ""] ]} Unlocked Sim.healthy [] ∅).
Proof. by vm_compute. Qed.

(** ** Package [slice] *)

Section Slice.

Context {T : Type} `{EqDecision T}.

Lemma anyFrom_spec (p : nat -> bool) (i n : nat) :
  slice.anyFrom p i n = true <-> exists k, (i <= k < i + n)%nat /\ p k = true.
Proof.
  revert i. induction n as [|n IH]; intros i; simpl.
  - split; [discriminate|]. intros (k & Hk & _). lia.
  - destruct (p i) eqn:Hpi.
    + split; [|done]. intros _. exists i. split; [lia|done].
    + rewrite IH. split; intros (k & Hk & Hpk).
      * exists k. split; [lia|done].
      * exists k. split; [|done].
        destruct (decide (k = i)) as [->|]; [congruence|lia].
Qed.

(** X19: AnyOf answers true exactly when the predicate holds at some index
    of the slice, NoneOf exactly when it holds at no index, and AllOf (built
    from NoneOf and the negated predicate) exactly when it holds at every
    index; on the empty slice AnyOf is false and NoneOf and AllOf are
    true. *)
Theorem AnyOf_NoneOf_AllOf_spec (s : list T) (p : nat -> bool) :
  (slice.AnyOf s p = true <-> exists i, (i < length s)%nat /\ p i = true)
  /\ (slice.NoneOf s p = true <-> forall i, (i < length s)%nat -> p i = false)
  /\ (slice.AllOf s p = true <-> forall i, (i < length s)%nat -> p i = true).
Proof.
  assert (Hany : forall q, slice.AnyOf s q = true
                           <-> exists i, (i < length s)%nat /\ q i = true).
  { intros q. unfold slice.AnyOf. rewrite anyFrom_spec.
    split; intros (k & Hk & Hq); exists k; (split; [lia|done]). }
  assert (Hnone : forall q, slice.NoneOf s q = true
                            <-> forall i, (i < length s)%nat -> q i = false).
  { intros q. unfold slice.NoneOf. rewrite negb_true_iff.
    rewrite <- not_true_iff_false, Hany. split.
    - intros Hno i Hi. apply not_true_iff_false. intros Hq. apply Hno. eauto.
    - intros Hall (i & Hi & Hq). rewrite Hall in Hq by done. discriminate. }
  split_and!; [apply Hany | apply Hnone |].
  unfold slice.AllOf. rewrite Hnone. split; intros Hall i Hi.
  - apply negb_false_iff. by apply Hall.
  - apply negb_false_iff. by apply Hall.
Qed.

Lemma Contains_elem_of (s : list T) (v : T) :
  slice.Contains s v = true <-> v ∈ s.
Proof.
  induction s as [|x s IH]; simpl.
  - split; [discriminate|]. by intros ?%elem_of_nil.
  - destruct (decide (x = v)) as [->|Hne].
    + split; [|done]. intros _. apply list_elem_of_here.
    + rewrite IH, elem_of_cons. split; [by right|]. by intros [->|?].
Qed.

Lemma Remove_loop_spec (value : T) (orig : list T) (n i : nat) :
  (i + n = length orig)%nat ->
  let F := filter (fun x => x <> value) (take i orig) in
  slice.Remove_loop value n i (length F) (F ++ drop (length F) orig)
  = (length (filter (fun x => x <> value) orig),
     filter (fun x => x <> value) orig
     ++ drop (length (filter (fun x => x <> value) orig)) orig).
Proof.
  revert i. induction n as [|n IH]; intros i Hlen F; simpl.
  - subst F. rewrite take_ge by lia. done.
  - assert (HF : (length F <= i)%nat).
    { subst F. etrans; [apply length_filter|]. rewrite length_take. lia. }
    destruct (lookup_lt_is_Some_2 orig i) as [x Hx]; [lia|].
    rewrite lookup_app_r by done. rewrite lookup_drop.
    replace (length F + (i - length F))%nat with i by lia. rewrite Hx.
    specialize (IH (S i)). simpl in IH.
    rewrite (take_S_r orig i x Hx), filter_app in IH.
    destruct (decide (x = value)) as [->|Hne].
    + rewrite filter_cons_False, filter_nil, app_nil_r in IH by (by intros ?).
      apply IH. lia.
    + rewrite filter_cons_True, filter_nil in IH by done.
      rewrite length_app in IH. simpl in IH.
      rewrite Nat.add_1_r in IH. rewrite <- IH by lia. f_equal.
      rewrite insert_app_r_alt by done. rewrite Nat.sub_diag.
      destruct (lookup_lt_is_Some_2 orig (length F)) as [y Hy]; [lia|].
      rewrite (drop_S orig y (length F) Hy). simpl.
      by rewrite <- app_assoc.
Qed.

Lemma Remove_spec (s : list T) (v : T) :
  slice.Remove s v
  = (filter (fun x => x <> v) s,
     filter (fun x => x <> v) s ++ drop (length (filter (fun x => x <> v) s)) s).
Proof.
  unfold slice.Remove.
  pose proof (Remove_loop_spec v s (length s) 0 eq_refl) as Hloop.
  simpl in Hloop. rewrite drop_0 in Hloop. rewrite Hloop.
  by rewrite take_app_length.
Qed.

(** X20: the slice that Remove returns holds the elements of the argument
    that differ from the value, in their order; it does not contain the
    value, and contains any other value exactly when the argument did. *)
Theorem Remove_result (s : list T) (v : T) :
  (slice.Remove s v).1 = filter (fun x => x <> v) s
  /\ slice.Contains (slice.Remove s v).1 v = false
  /\ (forall x, x <> v ->
        slice.Contains (slice.Remove s v).1 x = slice.Contains s x)
  /\ (length (slice.Remove s v).1 <= length s)%nat.
Proof.
  rewrite Remove_spec. simpl. split_and!; [done| | |apply length_filter].
  - apply not_true_iff_false. rewrite Contains_elem_of, list_elem_of_filter.
    by intros [? _].
  - intros x Hx. apply eq_true_iff_eq.
    rewrite !Contains_elem_of, list_elem_of_filter.
    split; [by intros [_ ?]|by intros ?].
Qed.

(** X21: Remove works in place: afterwards the array the argument lives in
    holds the returned elements followed by the old elements at the
    remaining positions, so the caller's slice keeps its length and shows
    stale elements at its end; nothing changes when the value does not
    occur. *)
Theorem Remove_in_place (s : list T) (v : T) :
  let '(res, arr) := slice.Remove s v in
  arr = res ++ drop (length res) s
  /\ length arr = length s
  /\ (v ∉ s -> res = s /\ arr = s).
Proof.
  rewrite Remove_spec. split_and!; [done| |].
  - rewrite length_app, length_drop.
    pose proof (length_filter (fun x => x <> v) s). lia.
  - intros Hnotin.
    assert (Hf : filter (fun x => x <> v) s = s).
    { clear -Hnotin. induction s as [|x s IH]; [done|].
      apply not_elem_of_cons in Hnotin as [Hne Hnotin].
      rewrite filter_cons_True by done. by rewrite IH. }
    rewrite Hf. split; [done|]. by rewrite drop_all, app_nil_r.
Qed.

Lemma allContained_spec (a b : list T) :
  slice.allContained a b = true <-> forall x, x ∈ a -> x ∈ b.
Proof.
  induction a as [|x a IH]; simpl.
  - split; [|done]. by intros _ x ?%elem_of_nil.
  - destruct (slice.Contains b x) eqn:Hc; simpl.
    + apply Contains_elem_of in Hc. rewrite IH. split.
      * intros Hall y [->|Hy]%elem_of_cons; [done|by apply Hall].
      * intros Hall y Hy. apply Hall. by right.
    + split; [discriminate|]. intros Hall.
      apply not_true_iff_false in Hc. exfalso. apply Hc.
      apply Contains_elem_of, Hall, list_elem_of_here.
Qed.

Lemma EqualWithoutOrder_spec (a b : list T) :
  slice.EqualWithoutOrder a b = true
  <-> length a = length b /\ forall x, x ∈ a -> x ∈ b.
Proof.
  unfold slice.EqualWithoutOrder.
  destruct (Nat.eqb_spec (length a) (length b)) as [Hlen|Hlen]; simpl.
  - rewrite allContained_spec. split; [by intros ?|by intros [_ ?]].
  - split; [discriminate|]. by intros [? _].
Qed.

(** X22: EqualWithoutOrder answers true for any two slices that are
    permutations of each other; when the first slice has no repeated
    element it answers true only for permutations. *)
Theorem EqualWithoutOrder_permutation (a b : list T) :
  (a ≡ₚ b -> slice.EqualWithoutOrder a b = true)
  /\ (NoDup a -> slice.EqualWithoutOrder a b = true -> a ≡ₚ b).
Proof.
  split.
  - intros Hperm. apply EqualWithoutOrder_spec. split.
    + by rewrite Hperm.
    + intros x. by rewrite Hperm.
  - intros Hnd [Hlen Hsub]%EqualWithoutOrder_spec.
    apply submseteq_length_Permutation; [|lia].
    by apply NoDup_submseteq.
Qed.

(** X23: EqualWithoutOrder does not compare multiplicities and is not
    symmetric: for two different values [x] and [y] it answers true for
    [x, x] against [x, y] (which are not permutations of each other) and
    false for [x, y] against [x, x]. *)
Theorem EqualWithoutOrder_not_symmetric (x y : T) :
  x <> y ->
  slice.EqualWithoutOrder [x; x] [x; y] = true
  /\ slice.EqualWithoutOrder [x; y] [x; x] = false
  /\ ~ [x; x] ≡ₚ [x; y].
Proof.
  intros Hne. split_and!.
  - apply EqualWithoutOrder_spec. split; [done|].
    intros z Hz. apply elem_of_cons.
    apply elem_of_cons in Hz as [->|Hz]; [by left|].
    apply elem_of_cons in Hz as [->|Hz]; [by left|]. by apply elem_of_nil in Hz.
  - apply not_true_iff_false. intros [_ Hsub]%EqualWithoutOrder_spec.
    assert (Hy : y ∈ [x; x]).
    { apply Hsub, list_elem_of_further, list_elem_of_here. }
    clear Hsub. rename Hy into Hsub.
    apply elem_of_cons in Hsub as [->|Hsub]; [done|].
    apply elem_of_cons in Hsub as [->|Hsub]; [done|]. by apply elem_of_nil in Hsub.
  - intros Hperm.
    assert (Hy : y ∈ [x; x]).
    { rewrite Hperm. apply list_elem_of_further, list_elem_of_here. }
    apply elem_of_cons in Hy as [->|Hy]; [done|].
    apply elem_of_cons in Hy as [->|Hy]; [done|]. by apply elem_of_nil in Hy.
Qed.

End Slice.

(** ** The configuration of the TSO service *)

Section TSOAdjust.

Variable AdjustString : string -> string -> string.
Variable AdjustDuration : Z -> Z -> Z.
Variable AdjustInt64 : Z -> Z -> Z.
Variable DefaultLeaderLease : Z.
Variable DefaultDisableErrorVerbose : bool.
Variable DefaultLogFormat DefaultLogLevel : string.
Variable Hostname : result string.
Variable EncryptionAdjust : option error.

Local Abbreviation Adjust :=
  (tso.Adjust AdjustString AdjustDuration AdjustInt64 DefaultLeaderLease
              DefaultDisableErrorVerbose DefaultLogFormat DefaultLogLevel
              Hostname EncryptionAdjust).

Lemma adjustRest_interval (meta : tso.MetaData) (name : string)
    (warnings : list string) (c : tso.Config) :
  let c' := (tso.adjustRest AdjustString AdjustDuration AdjustInt64
               DefaultLeaderLease DefaultDisableErrorVerbose DefaultLogFormat
               DefaultLogLevel EncryptionAdjust meta name warnings c).2 in
  (tso.minTSOUpdatePhysicalInterval <= tso.TSOUpdatePhysicalInterval c'
   <= tso.maxTSOUpdatePhysicalInterval)%Z
  /\ tso.Name c' = name /\ tso.WarningMsgs c' = warnings.
Proof.
  unfold tso.adjustRest, tso.adjustLog. simpl.
  split; [|done].
  set (i := AdjustDuration _ _).
  unfold tso.maxTSOUpdatePhysicalInterval, tso.minTSOUpdatePhysicalInterval,
    tso.Second, tso.Millisecond.
  destruct (Z.ltb_spec (10 * 1000000000) i); [lia|].
  destruct (Z.ltb_spec i (1 * 1000000)); lia.
Qed.

(** X24: whenever Adjust returns no error, the interval for updating the
    physical part of the timestamp lies between 1 ms and 10 s in the config
    it leaves, whatever the interval was before and whatever the helpers of
    package configutil compute. *)
Theorem Adjust_clamps_update_interval (meta : tso.MetaData) (c : tso.Config) :
  (Adjust meta c).1 = None ->
  (tso.minTSOUpdatePhysicalInterval
   <= tso.TSOUpdatePhysicalInterval (Adjust meta c).2
   <= tso.maxTSOUpdatePhysicalInterval)%Z.
Proof.
  unfold tso.Adjust.
  destruct (String.eqb (tso.Name c) "").
  - destruct Hostname as [hostname|e]; [|discriminate].
    intros _. apply adjustRest_interval.
  - intros _. apply adjustRest_interval.
Qed.

(** X25: when the config has no name and the host name cannot be read,
    Adjust returns that error and leaves every field as it was, except that
    the warning about undecoded keys of the configuration file, if there is
    one, has been appended to the warnings. *)
Theorem Adjust_hostname_failure (meta : tso.MetaData) (c : tso.Config)
    (e : error) :
  tso.Name c = "" ->
  Hostname = Err e ->
  (Adjust meta c).1 = Some e
  /\ (Adjust meta c).2
     = tso.mkConfig (tso.BackendEndpoints c) (tso.ListenAddr c)
         (tso.AdvertiseListenAddr c) (tso.Name c) (tso.LeaderLease c)
         (tso.TSOSaveInterval c) (tso.TSOUpdatePhysicalInterval c)
         (tso.MaxResetTSGap c)
         (tso.WarningMsgs c
          ++ match tso.CheckUndecoded meta with Some msg => [msg] | None => [] end)
         (tso.LogDisableErrorVerbose c) (tso.LogFormat c) (tso.LogLevel c).
Proof.
  intros Hname Hhost. unfold tso.Adjust. rewrite Hname, Hhost. simpl.
  split; [done|]. destruct (tso.CheckUndecoded meta); [done|].
  by rewrite app_nil_r.
Qed.

End TSOAdjust.

(** ** The further properties on concrete inputs *)

Lemma updateConfig_returns_lock_free_witness :
  let w := Sim.evicting5 Sim.storageDown in
  let input := {| store_id := Some 5; ranges := None |} in
  mu w = Unlocked
  /\ returns (updateConfig input w) = true
  /\ mu (stateOf (updateConfig input w)) = Unlocked
  /\ limitCounter (stateOf (updateConfig input w)) = limitCounter w.
Proof.
  split; [reflexivity|].
  apply (updateConfig_returns_lock_free
           {| store_id := Some 5; ranges := None |}
           (Sim.evicting5 Sim.storageDown)).
  reflexivity.
Defined.

Lemma updateConfig_without_store_id_witness :
  let w := Sim.evicting5 Sim.healthy in
  mu w = Unlocked
  /\ updateConfig {| store_id := None; ranges := None |} w
     = Returns (JSON http.StatusBadRequest
                     (BodyErrorText (ErrNew "should specify the store-id")))
         (mkWorld (StoreIDWitRanges w) Unlocked
                  (ResumeLeaderTransfer 0 constant.In (env w))
                  (trace w ++ [EvResume 0 constant.In]) (limitCounter w)).
Proof.
  split; [reflexivity|].
  apply (updateConfig_without_store_id (Sim.evicting5 Sim.healthy)).
  reflexivity.
Defined.

Lemma updateConfig_pause_failure_aborts_witness :
  let w := initWorld Sim.empty in
  let input := {| store_id := Some 5; ranges := None |} in
  StoreIDWitRanges w !! 5 = None
  /\ PauseLeaderTransfer 5 constant.In (env w)
     = (Some (ErrCollaborator 5), Sim.empty)
  /\ updateConfig input w
     = Returns (JSON http.StatusInternalServerError
                     (BodyErrorText (ErrCollaborator 5)))
         (mkWorld (StoreIDWitRanges w) (mu w) Sim.empty
                  (trace w ++ [EvPause 5 constant.In (Some (ErrCollaborator 5))])
                  (limitCounter w)).
Proof.
  split_and!; [reflexivity | reflexivity |].
  apply (updateConfig_pause_failure_aborts
           {| store_id := Some 5; ranges := None |} 5 (ErrCollaborator 5)
           Sim.empty (initWorld Sim.empty)); reflexivity.
Defined.

Lemma updateConfig_new_store_commits_witness :
  let w := initWorld Sim.healthy in
  let σ2 := Sim.mkState [5; 7; 9] [(5, (1, [7; 9]))] true
              [(EvictLeaderName, "5")] 0 4 in
  mu w = Unlocked
  /\ 5 < strconv.maxUint64
  /\ StoreIDWitRanges w !! 5 = None
  /\ updateConfig {| store_id := Some 5; ranges := None |} w
     = Returns (JSON http.StatusOK BodyNil)
         (mkWorld (<[5 := [NewKeyRange "" ""]]> (StoreIDWitRanges w)) Unlocked σ2
                  (trace w ++ [EvPause 5 constant.In None;
                               EvSave EvictLeaderName "5" None])
                  (limitCounter w)).
Proof.
  split_and!; [reflexivity | reflexivity | reflexivity |].
  apply (updateConfig_new_store_commits 5 "5" Sim.healthy
           (Sim.mkState [5; 7; 9] [(5, (1, [7; 9]))] true
              [(EvictLeaderName, "5")] 0 4)
           (initWorld Sim.healthy)); reflexivity.
Defined.

Lemma updateConfig_ok_means_saved_witness :
  let w := initWorld Sim.healthy in
  let out := serve (Sim.update 5) w in
  mu w = Unlocked
  /\ out = Returns (JSON http.StatusOK BodyNil) (stateOf out)
  /\ exists data,
       EncodeConfig (StoreIDWitRanges (stateOf out)) = Ok data
       /\ last (trace (stateOf out)) = Some (EvSave EvictLeaderName data None).
Proof.
  split_and!; [reflexivity | reflexivity |].
  apply (updateConfig_ok_means_saved
           {| store_id := Some 5; ranges := None |} (initWorld Sim.healthy)
           (stateOf (serve (Sim.update 5) (initWorld Sim.healthy)))
           (JSON http.StatusOK BodyNil)); reflexivity.
Defined.

Lemma updateConfig_without_ranges_redecodes_witness :
  let w : World Sim.State :=
    mkWorld {[ 5 := [NewKeyRange "a+b" "m"] ]} Unlocked Sim.healthy [] ∅ in
  let out := serve (Sim.update 5) w in
  mu w = Unlocked
  /\ StoreIDWitRanges w !! 5 = Some [NewKeyRange "a+b" "m"]
  /\ out = Returns (JSON http.StatusOK BodyNil) (stateOf out)
  /\ StoreIDWitRanges (stateOf out) !! 5 = Some [NewKeyRange "a b" "m"]
  /\ exists rs',
       getKeyRanges (flattenRanges [NewKeyRange "a+b" "m"]) = Ok rs'
       /\ StoreIDWitRanges (stateOf out) = <[5 := rs']> (StoreIDWitRanges w)
       /\ pauseCalls 5 (trace (stateOf out)) = pauseCalls 5 (trace w)
       /\ ([NewKeyRange "a+b" "m"] <> [] ->
           forallb plainRange [NewKeyRange "a+b" "m"] = true ->
           StoreIDWitRanges (stateOf out) = StoreIDWitRanges w).
Proof.
  split_and!; [reflexivity | reflexivity | reflexivity | reflexivity |].
  apply (updateConfig_without_ranges_redecodes 5 [NewKeyRange "a+b" "m"]
           (mkWorld {[ 5 := [NewKeyRange "a+b" "m"] ]} Unlocked Sim.healthy [] ∅)
           (stateOf (serve (Sim.update 5)
              (mkWorld {[ 5 := [NewKeyRange "a+b" "m"] ]} Unlocked
                       Sim.healthy [] ∅)))
           (JSON http.StatusOK BodyNil)); reflexivity.
Defined.

Lemma deleteConfig_never_succeeds_witness :
  let w := Sim.evicting5 Sim.healthy in
  mu w = Unlocked
  /\ deleteConfig "x5" w
     = Returns (JSON http.StatusBadRequest (BodyErrorText (ErrSyntax "x5"))) w
  /\ match deleteConfig "x5" w with
     | Returns resp w' =>
         w' = w
         /\ (status resp = http.StatusBadRequest
             \/ status resp = http.StatusInternalServerError)
     | NoReturn w' =>
         exists S rs,
           strconv.ParseUint "x5" = Ok S /\ StoreIDWitRanges w !! S = Some rs
     end.
Proof.
  split_and!; [reflexivity | reflexivity |].
  apply (deleteConfig_never_succeeds "x5" (Sim.evicting5 Sim.healthy)).
  reflexivity.
Defined.

Lemma serve_frames_other_stores_witness :
  let w : World Sim.State :=
    mkWorld {[ 7 := Sim.am ]} Unlocked Sim.storageDown [] ∅ in
  let w' := stateOf (serve (Sim.update 5) w) in
  mu w = Unlocked /\ 5 < strconv.maxUint64
  /\ onStore 5 (Sim.update 5) = true /\ 7 <> 5
  /\ StoreIDWitRanges w' !! 7 = StoreIDWitRanges w !! 7
  /\ pauseCalls 7 (trace w') = pauseCalls 7 (trace w)
  /\ resumeCalls 7 (trace w') = resumeCalls 7 (trace w).
Proof.
  split_and!; [reflexivity | reflexivity | reflexivity | discriminate | ..];
    apply (serve_frames_other_stores 5 7 (Sim.update 5)
             (mkWorld {[ 7 := Sim.am ]} Unlocked Sim.storageDown [] ∅));
    (reflexivity || discriminate).
Defined.

Lemma serveAll_keeps_ranges_nonempty_witness :
  let rs := [Sim.update 5;
             ReqUpdate {| store_id := None; ranges := None |};
             ReqDelete "7"; ReqDelete "5"; Sim.update 7] in
  mu (initWorld Sim.healthy) = Unlocked
  /\ rangesNonEmpty (initWorld Sim.healthy)
  /\ rangesNonEmpty (stateOf (serveAll rs (initWorld Sim.healthy))).
Proof.
  assert (Hinit : rangesNonEmpty (initWorld Sim.healthy)).
  { intros id rs Hlk. simpl in Hlk. by rewrite lookup_empty in Hlk. }
  split_and!; [reflexivity | exact Hinit |].
  apply (serveAll_keeps_ranges_nonempty
           [Sim.update 5;
            ReqUpdate {| store_id := None; ranges := None |};
            ReqDelete "7"; ReqDelete "5"; Sim.update 7]
           (initWorld Sim.healthy)); [reflexivity | exact Hinit].
Defined.

Lemma CleanConfig_resumes_every_store_witness :
  let w : World Sim.State :=
    mkWorld {[ 5 := Sim.am; 6 := Sim.am; 7 := Sim.am ]} Unlocked Sim.healthy [] ∅ in
  let order := (map_to_list (StoreIDWitRanges w)).*1 in
  mu w = Unlocked
  /\ CleanConfig order w
     = Returns tt (mkWorld (StoreIDWitRanges w) Unlocked
                           (resumeAll order (env w))
                           (trace w ++ map (fun id => EvResume id constant.In) order)
                           (limitCounter w))
  /\ forall S,
       resumeCalls S (map (fun id => EvResume id constant.In) order)
       = if configured S w then 1%nat else 0%nat.
Proof.
  split; [reflexivity|].
  apply (CleanConfig_resumes_every_store
           (map_to_list ({[ 5 := Sim.am; 6 := Sim.am; 7 := Sim.am ]} : targets_map)).*1
           (mkWorld {[ 5 := Sim.am; 6 := Sim.am; 7 := Sim.am ]} Unlocked
                    Sim.healthy [] ∅));
    reflexivity.
Defined.

Lemma PrepareConfig_then_CleanConfig_balanced_witness :
  let w : World Sim.State :=
    mkWorld {[ 5 := Sim.am; 6 := Sim.am; 7 := Sim.am ]} Unlocked Sim.healthy [] ∅ in
  let order := (map_to_list (StoreIDWitRanges w)).*1 in
  let prepared := PrepareConfig order w in
  let cleaned := CleanConfig (reverse order) (stateOf prepared) in
  mu w = Unlocked
  /\ prepared = Returns (Some (ErrCollaborator 6)) (stateOf prepared)
  /\ returns prepared = true /\ returns cleaned = true
  /\ StoreIDWitRanges (stateOf cleaned) = StoreIDWitRanges w
  /\ mu (stateOf cleaned) = Unlocked
  /\ forall S,
       pauseCalls S (callsSince w (stateOf cleaned))
       = (if configured S w then 1%nat else 0%nat)
       /\ resumeCalls S (callsSince w (stateOf cleaned))
          = (if configured S w then 1%nat else 0%nat).
Proof.
  split_and!; [reflexivity | reflexivity | ..];
    apply (PrepareConfig_then_CleanConfig_balanced
             (map_to_list ({[ 5 := Sim.am; 6 := Sim.am; 7 := Sim.am ]} : targets_map)).*1
             (reverse (map_to_list ({[ 5 := Sim.am; 6 := Sim.am; 7 := Sim.am ]}
                                     : targets_map)).*1)
             (mkWorld {[ 5 := Sim.am; 6 := Sim.am; 7 := Sim.am ]} Unlocked
                      Sim.healthy [] ∅));
    try reflexivity; apply reverse_Permutation.
Defined.

Lemma Schedule_operators_high_priority_witness :
  let w := Sim.evicting5 Sim.healthy in
  mu w = Unlocked
  /\ exists ops w',
       Schedule [(5, Sim.am)] w = Returns (ops, []) w'
       /\ Forall (fun op => operator.Priority op = constant.High) ops
       /\ StoreIDWitRanges w' = StoreIDWitRanges w /\ mu w' = Unlocked
       /\ trace w' = trace w /\ limitCounter w' = limitCounter w.
Proof.
  split; [reflexivity|].
  apply (Schedule_operators_high_priority [(5, Sim.am)]
           (Sim.evicting5 Sim.healthy)).
  reflexivity.
Defined.

Lemma sliceDecoder_agrees_with_BuildWithArgs_witness :
  let w := Sim.evicting5 Sim.healthy in
  let args := ["7"; "a%2Fb"; "m"] in
  mu w = Unlocked
  /\ sliceDecoder args (AnyConfig (StoreIDWitRanges w))
     = (None, AnyConfig (<[7 := [NewKeyRange "a/b" "m"]]> (StoreIDWitRanges w)))
  /\ (exists err conf',
        sliceDecoder args (AnyConfig (StoreIDWitRanges w)) = (err, AnyConfig conf')
        /\ BuildWithArgs args w = Returns err (setConf conf' w))
  /\ exists e, sliceDecoder args AnyOther = (Some e, AnyOther).
Proof.
  split_and!; [reflexivity | reflexivity | ..];
    apply (sliceDecoder_agrees_with_BuildWithArgs ["7"; "a%2Fb"; "m"]
             (Sim.evicting5 Sim.healthy)); reflexivity.
Defined.

Lemma EqualWithoutOrder_not_symmetric_witness :
  1%nat <> 2%nat
  /\ slice.EqualWithoutOrder [1; 1]%nat [1; 2]%nat = true
  /\ slice.EqualWithoutOrder [1; 2]%nat [1; 1]%nat = false
  /\ ~ [1; 1]%nat ≡ₚ [1; 2]%nat.
Proof.
  split; [discriminate|].
  apply (EqualWithoutOrder_not_symmetric 1%nat 2%nat). discriminate.
Defined.

Example Remove_example :
  slice.Remove [3; 1; 3; 2; 3]%nat 3%nat = ([1; 2]%nat, [1; 2; 3; 2; 3]%nat).
Proof. reflexivity. Qed.

Lemma Adjust_clamps_update_interval_witness :
  (tso.sampleAdjust (Ok "pd-0") (tso.mkMetaData None false) tso.sample).1 = None
  /\ tso.TSOUpdatePhysicalInterval
       (tso.sampleAdjust (Ok "pd-0") (tso.mkMetaData None false) tso.sample).2
     = tso.maxTSOUpdatePhysicalInterval
  /\ (tso.minTSOUpdatePhysicalInterval
      <= tso.TSOUpdatePhysicalInterval
           (tso.sampleAdjust (Ok "pd-0") (tso.mkMetaData None false) tso.sample).2
      <= tso.maxTSOUpdatePhysicalInterval)%Z.
Proof.
  split; [reflexivity|]. split; [reflexivity|].
  apply (Adjust_clamps_update_interval tso.adjustStringDefault
           tso.adjustNumberDefault tso.adjustNumberDefault 3 true "text" "info"
           (Ok "pd-0") None (tso.mkMetaData None false) tso.sample).
  reflexivity.
Defined.

Lemma Adjust_hostname_failure_witness :
  let meta := tso.mkMetaData (Some "unknown key") false in
  let e := ErrNew "no host name" in
  tso.Name tso.sample = ""
  /\ (tso.sampleAdjust (Err e) meta tso.sample).1 = Some e
  /\ (tso.sampleAdjust (Err e) meta tso.sample).2
     = tso.mkConfig "" "" "" "" 0 0 (60 * tso.Second) 0 ["unknown key"]
                    false "" "".
Proof.
  split; [reflexivity|].
  apply (Adjust_hostname_failure tso.adjustStringDefault
           tso.adjustNumberDefault tso.adjustNumberDefault 3 true "text" "info"
           (Err (ErrNew "no host name")) None
           (tso.mkMetaData (Some "unknown key") false) tso.sample
           (ErrNew "no host name")); reflexivity.
Defined.

Example Adjust_sample :
  tso.sampleAdjust (Ok "pd-0") (tso.mkMetaData None false) tso.sample
  = (None,
     tso.mkConfig tso.defaultBackendEndpoints tso.defaultListenAddr
       tso.defaultListenAddr "tso-pd-0" 3 (3 * tso.Second) (10 * tso.Second)
       (24 * tso.Hour) [] true "text" "info").
Proof. reflexivity. Qed.
